(** * lira: tiled inference, reassembly and relaxation denoising

    A shallow embedding of [lira_static/denoise_predictions.py] and of the
    classification / assembly loop of [lira_static/generate_predictions.py],
    with the properties the written specification states about them.

    Python integers are [Z]; numpy arrays live in a store and are passed
    around by reference, as in Python; an exception is a value of [exn]. *)

From stdpp Require Import list.
From Stdlib Require Import ZArith Lia.

Open Scope Z_scope.

(** ** Python runtime model *)

Module Py.

(** The exceptions the modelled code can raise.  [InvalidReference] has no
    Python counterpart: it is what the model answers when a reference does
    not point into the store, which a Python name never does. *)
Inductive exn : Set :=
| ValueError
| IndexError
| UnboundLocalError
| InvalidReference.

Inductive result (A : Type) : Type :=
| Ok (a : A)
| Raise (e : exn).
Arguments Ok {A} a.
Arguments Raise {A} e.

(** A two-dimensional numpy array in C order: its shape and its flat,
    row-major buffer.  Labels are integers. *)
Record ndarray : Set := NdArray {
  shape0 : nat;
  shape1 : nat;
  data : list Z
}.

Definition wf_array (a : ndarray) : Prop :=
  length (data a) = (shape0 a * shape1 a)%nat.

(** The store: arrays are allocated at the end and never freed. *)
Abbreviation loc := nat (only parsing).
Abbreviation heap := (list ndarray) (only parsing).

(** Computations that read and write the store and may raise.  The store
    survives an exception. *)
Definition M (A : Type) : Type := heap -> result A * heap.

Definition ret {A} (a : A) : M A := fun σ => (Ok a, σ).
Definition raise {A} (e : exn) : M A := fun σ => (Raise e, σ).
Definition bind {A B} (c : M A) (k : A -> M B) : M B :=
  fun σ => match c σ with
           | (Ok a, σ') => k a σ'
           | (Raise e, σ') => (Raise e, σ')
           end.
Definition lift {A} (r : result A) : M A := fun σ => (r, σ).

Declare Scope py_scope.
Delimit Scope py_scope with py.
Notation "'let*' x ':=' c 'in' k" := (bind c (fun x => k))
  (at level 10, x pattern, c at level 100, k at level 200) : py_scope.
Notation "c ;;; k" := (bind c (fun _ => k))
  (at level 100, right associativity) : py_scope.
Open Scope py_scope.

(** [for x in xs: body], the loop-carried locals threaded as [s]. *)
Fixpoint for_each {A St} (xs : list A) (body : A -> St -> M St) (s : St)
  : M St :=
  match xs with
  | [] => ret s
  | x :: xs' => let* s' := body x s in for_each xs' body s'
  end.

(** [range(n)] *)
Definition range (n : Z) : list Z := seqZ 0 n.

(** *** Store operations *)

Definition deref (l : loc) : M ndarray :=
  fun σ => match σ !! l with
           | Some a => (Ok a, σ)
           | None => (Raise InvalidReference, σ)
           end.

Definition alloc (a : ndarray) : M loc :=
  fun σ => (Ok (length σ), σ ++ [a]).

Definition store (l : loc) (a : ndarray) : M unit :=
  fun σ => if decide (l < length σ)%nat
           then (Ok tt, <[l := a]> σ)
           else (Raise InvalidReference, σ).

(** *** numpy *)

(** [a.shape] *)
Definition shape (l : loc) : M (Z * Z) :=
  let* a := deref l in ret (Z.of_nat (shape0 a), Z.of_nat (shape1 a)).

(** [np.zeros((n))]: a negative dimension is a [ValueError]. *)
Definition np_zeros (n : Z) : result (list Z) :=
  if decide (n < 0) then Raise ValueError else Ok (replicate (Z.to_nat n) 0).

(** [np.zeros_like(a)]: a fresh array of the shape of [a]. *)
Definition np_zeros_like (l : loc) : M loc :=
  let* a := deref l in
  alloc {| shape0 := shape0 a; shape1 := shape1 a;
           data := replicate (shape0 a * shape1 a) 0 |}.

(** An index into an axis of length [n]: a negative index counts from the
    end, anything outside [-n, n) is out of bounds. *)
Definition norm_index (n : nat) (i : Z) : option nat :=
  if decide (0 <= i < Z.of_nat n) then Some (Z.to_nat i)
  else if decide (- Z.of_nat n <= i < 0) then Some (Z.to_nat (i + Z.of_nat n))
  else None.

Definition offset (a : ndarray) (ij : Z * Z) : option nat :=
  match norm_index (shape0 a) ij.1, norm_index (shape1 a) ij.2 with
  | Some i, Some j => Some (i * shape1 a + j)%nat
  | _, _ => None
  end.

(** [a[i, j]] *)
Definition getitem (l : loc) (ij : Z * Z) : M Z :=
  let* a := deref l in
  match offset a ij with
  | Some k => match data a !! k with
              | Some v => ret v
              | None => raise IndexError
              end
  | None => raise IndexError
  end.

(** [a[i, j] = v] *)
Definition setitem (l : loc) (ij : Z * Z) (v : Z) : M unit :=
  let* a := deref l in
  match offset a ij with
  | Some k => store l {| shape0 := shape0 a; shape1 := shape1 a;
                         data := <[k := v]> (data a) |}
  | None => raise IndexError
  end.

(** [v[i] = x] on a one-dimensional array held in a local. *)
Definition setitem1 (v : list Z) (i : Z) (x : Z) : result (list Z) :=
  match norm_index (length v) i with
  | Some k => Ok (<[k := x]> v)
  | None => Raise IndexError
  end.

(** [np.argmin(v)]: the index of the first occurrence of the minimum; a
    [ValueError] on an empty sequence. *)
Fixpoint argmin_from (best_i : nat) (best : Z) (k : nat) (v : list Z) : nat :=
  match v with
  | [] => best_i
  | x :: v' => if x <? best then argmin_from k x (S k) v'
               else argmin_from best_i best (S k) v'
  end.

Definition argmin (v : list Z) : nat :=
  match v with
  | [] => O
  | x :: v' => argmin_from 0 x 1 v'
  end.

Definition np_argmin (v : list Z) : result Z :=
  match v with
  | [] => Raise ValueError
  | _ :: _ => Ok (Z.of_nat (argmin v))
  end.

(** [np.sum(v)] *)
Definition np_sum (v : list Z) : Z := foldr Z.add 0 v.

End Py.

Import Py.

(** ** The denoiser: [lira_static/denoise_predictions.py] *)

Module Denoise.

(** [kronecker_delta(a, b)]: [np.logical_not(a - b).astype(int)] on scalars. *)
Definition kronecker_delta (a b : Z) : Z :=
  if decide (a - b = 0) then 1 else 0.

(** The same on a vector [b], elementwise. *)
Definition kronecker_delta_vec (a : Z) (b : list Z) : list Z :=
  kronecker_delta a <$> b.

(** The test of [get_neighbors] that removes a sample. *)
Definition outside (h w : Z) (p : Z * Z) : bool :=
  (p.1 <? 0) || (p.1 >? h - 1) || (p.2 <? 0) || (p.2 >? w - 1).

(** The loop of [get_neighbors]: [neighbor_i] runs from [n - 1] down to
    [0]; it reads [neighbors[neighbor_i]] and deletes it in place when the
    sample is outside the image. *)
Fixpoint prune (h w : Z) (n : nat) (neighbors : list (Z * Z))
  : result (list (Z * Z)) :=
  match n with
  | O => Ok neighbors
  | S neighbor_i =>
      match neighbors !! neighbor_i with
      | Some sample =>
          if outside h w sample
          then prune h w neighbor_i (delete neighbor_i neighbors)
          else prune h w neighbor_i neighbors
      | None => Raise IndexError
      end
  end.

Definition get_neighbors (i j h w : Z) : result (list (Z * Z)) :=
  let neighbors :=
    [(i-1, j-1); (i-1, j); (i-1, j+1); (i, j-1); (i, j+1);
     (i+1, j-1); (i+1, j); (i+1, j+1)] in
  prune h w (length neighbors) neighbors.

(** [mapM] of a store read over a list of indices: the list comprehension
    [[src[neighbor] for neighbor in neighbors]]. *)
Fixpoint read_all (src : loc) (neighbors : list (Z * Z)) : M (list Z) :=
  match neighbors with
  | [] => ret []
  | neighbor :: rest =>
      let* v := getitem src neighbor in
      let* vs := read_all src rest in
      ret (v :: vs)
  end.

Definition cost (dst_val src_val : Z) (src : loc) (neighbors : list (Z * Z))
  : M Z :=
  let* neighbor_vals := read_all src neighbors in
  ret (- (1 * kronecker_delta dst_val src_val
          + 10 * np_sum (kronecker_delta_vec dst_val neighbor_vals))).

(** The locals that the epoch loop carries: [src], [dst] (unbound before
    the first iteration) and the buffer [costs]. *)
Definition locals : Type := loc * option loc * list Z.

(** The body of [for j in range(w)] for a fixed [i]. *)
Definition pixel (src dst : loc) (class_n h w i j : Z) (costs : list Z)
  : M (list Z) :=
  let* neighbors := lift (get_neighbors i j h w) in
  let* costs :=
    for_each (range class_n)
      (fun class_i costs =>
         let* src_val := getitem src (i, j) in
         let* c := cost class_i src_val src neighbors in
         lift (setitem1 costs class_i c))
      costs in
  let* best := lift (np_argmin costs) in
  setitem dst (i, j) best ;;;
  ret costs.

(** The body of [for epoch in range(epochs)].  The progress line written
    to standard output is left out. *)
Definition epoch (class_n h w : Z) (_ : Z) (s : locals) : M locals :=
  let '(src, _, costs) := s in
  let* dst := np_zeros_like src in
  let* costs :=
    for_each (range h)
      (fun i costs =>
         for_each (range w) (fun j costs => pixel src dst class_n h w i j costs)
           costs)
      costs in
  ret (dst, Some dst, costs).

(** The loop of [denoise_predictions] with what precedes it. *)
Definition epochs_loop (src : loc) (class_n epochs : Z) : M locals :=
  let* (h, w) := shape src in
  let* costs := lift (np_zeros class_n) in
  for_each (range epochs) (epoch class_n h w) (src, None, costs).

Definition denoise_predictions (src : loc) (class_n epochs : Z) : M loc :=
  let* (_, dst, _) := epochs_loop src class_n epochs in
  match dst with
  | Some dst => ret dst
  | None => raise UnboundLocalError
  end.

End Denoise.

Import Denoise.

(** ** Classification and assembly: [lira_static/generate_predictions.py] *)

Module Generate.

Definition rbind {A B} (r : result A) (k : A -> result B) : result B :=
  match r with
  | Ok a => k a
  | Raise e => Raise e
  end.

Notation "'let?' x ':=' c 'in' k" := (rbind c (fun x => k))
  (at level 10, x pattern, c at level 100, k at level 200) : py_scope.

(** A loop whose body touches no array of the store. *)
Fixpoint for_result {A St} (xs : list A) (body : A -> St -> result St) (s : St)
  : result St :=
  match xs with
  | [] => Ok s
  | x :: xs' => let? s' := body x s in for_result xs' body s'
  end.

(** [xrange(start, stop, step)] *)
Definition xrange (start stop step : Z) : result (list Z) :=
  if decide (step = 0) then Raise ValueError
  else if decide (0 < step)
  then Ok ((fun k : nat => start + Z.of_nat k * step)
           <$> seq 0 (Z.to_nat ((stop - start + step - 1) / step)))
  else Ok ((fun k : nat => start + Z.of_nat k * step)
           <$> seq 0 (Z.to_nat ((start - stop - step - 1) / (- step)))).

(** A bound of a slice over a sequence of length [n]: a negative bound
    counts from the end, and every bound is clipped to [[0, n]]. *)
Definition clip (n : nat) (i : Z) : nat :=
  Z.to_nat (if decide (i < 0) then Z.max (i + Z.of_nat n) 0
            else Z.min i (Z.of_nat n)).

(** [l[lo:hi]] *)
Definition slice {A} (l : list A) (lo hi : Z) : list A :=
  take (clip (length l) hi - clip (length l) lo) (drop (clip (length l) lo) l).

(** [a[lo:hi] = v] on a one-dimensional numpy array: [v] has the length of
    the slice, or a single entry that is broadcast; anything else is a
    [ValueError], and the length of [a] never changes. *)
Definition slice_assign (a : list Z) (lo hi : Z) (v : list Z)
  : result (list Z) :=
  let lo' := clip (length a) lo in
  let k := (clip (length a) hi - lo')%nat in
  if decide (length v = k)
  then Ok (take lo' a ++ v ++ drop (lo' + k) a)
  else match v with
       | [x] => Ok (take lo' a ++ replicate k x ++ drop (lo' + k) a)
       | _ => Raise ValueError
       end.

(** [np.reshape(v, (rows, cols))] of a one-dimensional [v], in C order. *)
Definition np_reshape (v : list Z) (rows cols : Z) : result ndarray :=
  if decide (0 <= rows /\ 0 <= cols /\ rows * cols = Z.of_nat (length v))
  then Ok {| shape0 := Z.to_nat rows; shape1 := Z.to_nat cols; data := v |}
  else Raise ValueError.

(** The rows of a matrix. *)
Fixpoint rows_of (h w : nat) (dat : list Z) : list (list Z) :=
  match h with
  | O => []
  | S h' => take w dat :: rows_of h' w (drop w dat)
  end.

(** Modelled from the spec: [get_concatenated_row] of [img_handler.py],
    which the sources do not include.  It concatenates two block matrices
    left to right; blocks of different heights are a fatal mismatch. *)
Definition get_concatenated_row (ms : ndarray * ndarray) : result ndarray :=
  let '(m1, m2) := ms in
  if decide (shape0 m1 = shape0 m2)
  then Ok {| shape0 := shape0 m1;
             shape1 := shape1 m1 + shape1 m2;
             data := concat (zip_with app
                               (rows_of (shape0 m1) (shape1 m1) (data m1))
                               (rows_of (shape0 m2) (shape1 m2) (data m2))) |}
  else Raise ValueError.

(** Modelled from the spec: [get_concatenated_col] of [img_handler.py],
    which the sources do not include.  It concatenates the block-row
    matrices top to bottom; row bands of different widths, or no band at
    all, are a fatal mismatch. *)
Definition get_concatenated_col (ms : list ndarray) : result ndarray :=
  match ms with
  | [] => Raise ValueError
  | m :: rest =>
      if decide (Forall (fun m' => shape1 m' = shape1 m) rest)
      then Ok {| shape0 := foldr (fun m' acc => shape0 m' + acc)%nat O ms;
                 shape1 := shape1 m;
                 data := concat (data <$> ms) |}
      else Raise ValueError
  end.

(** The constants of [generate_predictions]. *)
Definition sub_h : Z := 80.
Definition sub_w : Z := 145.
Definition mb_n : Z := 100.
Definition epochs : Z := 2.

Section WithClassifier.
(** A tile, and the external classifier: a batch of tiles in, labels
    out.  The calls made to it are logged. *)
Variable tile : Type.
Variable classify : list tile -> list Z.

(** The locals of the batch loop: [overlay_predictions],
    [overlay_prediction_i], and the batches classified so far. *)
Definition batch_state : Type := list Z * Z * list (list tile).

(** The body of [for sub_i in xrange(0, len(subs), mb_n)]. *)
Definition classify_batch (subs : list tile) (mb_n : Z) (sub_i : Z)
    (s : batch_state) : result batch_state :=
  let '(overlay_predictions, overlay_prediction_i, calls) := s in
  let batch := slice subs sub_i (sub_i + mb_n) in
  let? overlay_predictions :=
    slice_assign overlay_predictions overlay_prediction_i
      (overlay_prediction_i + Z.of_nat (length batch)) (classify batch) in
  Ok (overlay_predictions,
      overlay_prediction_i + Z.of_nat (length batch),
      calls ++ [batch]).

(** The batch loop over the flat tile sequence [subs] of a block. *)
Definition classify_batches (subs : list tile) (mb_n : Z)
    (overlay_predictions : list Z) : result batch_state :=
  let? starts := xrange 0 (Z.of_nat (length subs)) mb_n in
  for_result starts (classify_batch subs mb_n) (overlay_predictions, 0, []).

(** One block: what the loop body of [generate_predictions] does between
    taking the sub-image and storing its label matrix.  [subs] is the
    flat tile sequence that [get_subsections] and the reshape produce.
    The array [overlay], which is allocated and not used, is left out. *)
Definition block_predictions (mb_n sub_img_h sub_img_w : Z)
    (subs : list tile) : result ndarray :=
  let? overlay_predictions :=
    np_zeros ((sub_img_h / sub_h) * (sub_img_w / sub_w)) in
  let? (overlay_predictions, _, _) :=
    classify_batches subs mb_n overlay_predictions in
  np_reshape overlay_predictions (sub_img_h / sub_h) (sub_img_w / sub_w).

(** [predictions[row_i] = m] on a Python list. *)
Definition list_setitem (l : list ndarray) (i : Z) (m : ndarray)
  : result (list ndarray) :=
  match norm_index (length l) i with
  | Some k => Ok (<[k := m]> l)
  | None => Raise IndexError
  end.

Definition list_getitem (l : list ndarray) (i : Z) : result ndarray :=
  match norm_index (length l) i with
  | Some k => match l !! k with Some m => Ok m | None => Raise IndexError end
  | None => Raise IndexError
  end.

(** The assembly of one image for the partition factor
    [img_divide_factor]; [blocks row_i col_i] gives the height and width
    of the sub-image of a block and its flat tile sequence. *)
Definition assemble (mb_n img_divide_factor : Z)
    (blocks : Z -> Z -> Z * Z * list tile) : result ndarray :=
  let predictions :=
    (fun _ => NdArray 0 0 []) <$> range img_divide_factor in
  let? predictions :=
    for_result (range img_divide_factor)
      (fun row_i predictions =>
         for_result (range img_divide_factor)
           (fun col_i predictions =>
              let '(sub_img_h, sub_img_w, subs) := blocks row_i col_i in
              let? overlay_predictions :=
                block_predictions mb_n sub_img_h sub_img_w subs in
              if decide (col_i = 0)
              then list_setitem predictions row_i overlay_predictions
              else
                let? row := list_getitem predictions row_i in
                let? row := get_concatenated_row (row, overlay_predictions) in
                list_setitem predictions row_i row)
           predictions)
      predictions in
  get_concatenated_col predictions.

(** One image: the assembled grid is denoised with one class per entry
    of [classifications], of which there are seven. *)
Definition image_predictions (img_divide_factor : Z)
    (blocks : Z -> Z -> Z * Z * list tile) : M loc :=
  let* predictions := lift (assemble mb_n img_divide_factor blocks) in
  let* predictions := alloc predictions in
  denoise_predictions predictions 7 epochs.

(** [generate_predictions]: every image of the archive in turn, given by
    its partition factor and its blocks; the datasets written to the
    predictions archive, in the order of the images. *)
Definition generate_predictions
    (imgs : list (Z * (Z -> Z -> Z * Z * list tile))) : M (list loc) :=
  for_each imgs
    (fun img datasets =>
       let* predictions := image_predictions img.1 img.2 in
       ret (datasets ++ [predictions]))
    [].
End WithClassifier.

End Generate.

Import Generate.

(** ** Definitions for the statements *)

(** [r] is the first position of [v] that holds the least entry of [v]. *)
Definition first_min (v : list Z) (r : nat) : Prop :=
  exists m, v !! r = Some m
    /\ (forall j x, v !! j = Some x -> m <= x)
    /\ (forall j x, (j < r)%nat -> v !! j = Some x -> m < x).

(** The cell [p] lies in the [h] x [w] grid. *)
Definition inside (h w : Z) (p : Z * Z) : Prop :=
  0 <= p.1 < h /\ 0 <= p.2 < w.

#[global] Instance inside_dec h w p : Decision (inside h w p).
Proof. unfold inside. apply _. Defined.

(** The eight samples of [get_neighbors], before any is removed. *)
Definition samples (i j : Z) : list (Z * Z) :=
  [(i-1, j-1); (i-1, j); (i-1, j+1); (i, j-1); (i, j+1);
   (i+1, j-1); (i+1, j); (i+1, j+1)].

(** The [h] and [w] that [denoise_predictions] reads from [src.shape]. *)
Definition height (a : ndarray) : Z := Z.of_nat (shape0 a).
Definition width (a : ndarray) : Z := Z.of_nat (shape1 a).

(** The entry of [a] at row [p.1], column [p.2]. *)
Definition cell (a : ndarray) (p : Z * Z) : Z :=
  default 0 (data a !! (Z.to_nat p.1 * shape1 a + Z.to_nat p.2)%nat).

(** What [get_neighbors] returns for the cell [(i, j)] of [a]. *)
Definition neighborhood (a : ndarray) (i j : Z) : list (Z * Z) :=
  filter (inside (height a) (width a)) (samples i j).

(** What [cost] returns for the candidate [c] at the cell [(i, j)] of [a]. *)
Definition cost_at (a : ndarray) (i j c : Z) : Z :=
  - (1 * kronecker_delta c (cell a (i, j))
     + 10 * np_sum (kronecker_delta_vec c (cell a <$> neighborhood a i j))).

(** The label written at [(i, j)] when the grid before the epoch is [a]. *)
Definition new_label (class_n : Z) (a : ndarray) (i j : Z) : Z :=
  Z.of_nat (argmin (cost_at a i j <$> range class_n)).

(** The single-epoch step function. *)
Definition epoch_step (class_n : Z) (a : ndarray) : ndarray :=
  {| shape0 := shape0 a;
     shape1 := shape1 a;
     data := (fun k : nat =>
                new_label class_n a (Z.of_nat (k / shape1 a))
                                    (Z.of_nat (k mod shape1 a)))
             <$> seq 0 (shape0 a * shape1 a) |}.

(** The first [n] entries of the buffer [dat] of the destination already
    hold the labels of the epoch; the rest is still to be written. *)
Definition filled (class_n : Z) (a : ndarray) (n : nat) (dat : list Z) : Prop :=
  length dat = (shape0 a * shape1 a)%nat
  /\ forall k, (k < n)%nat -> dat !! k = data (epoch_step class_n a) !! k.

(** The array of the shape of [a] over the buffer [dat]. *)
Definition with_data (a : ndarray) (dat : list Z) : ndarray :=
  {| shape0 := shape0 a; shape1 := shape1 a; data := dat |}.

(** [k] applications of the single-epoch step. *)
Definition iterate (class_n : Z) (k : nat) (a : ndarray) : ndarray :=
  Nat.iter k (epoch_step class_n) a.

(** The grids after epochs [1], ..., [k], in this order. *)
Definition trajectory (class_n : Z) (a : ndarray) (k : nat) : list ndarray :=
  (fun m => iterate class_n (S m) a) <$> seq 0 k.

(** Where the locals [src] and [dst] point after [k] iterations that
    started in a store of [n] arrays. *)
Definition src_after (n : nat) (src : loc) (k : nat) : loc :=
  match k with O => src | S m => (n + m)%nat end.
Definition dst_after (n : nat) (k : nat) : option loc :=
  match k with O => None | S m => Some (n + m)%nat end.

(** Chebyshev distance between two cells. *)
Definition chebyshev (p q : Z * Z) : Z :=
  Z.max (Z.abs (p.1 - q.1)) (Z.abs (p.2 - q.2)).

(** The position of a cell with respect to the border of an [h] x [w]
    grid: in the first or last row, in the first or last column. *)
Definition on_row_border (h i : Z) : Prop := i = 0 \/ i = h - 1.
Definition on_col_border (w j : Z) : Prop := j = 0 \/ j = w - 1.

Definition corner (h w i j : Z) : Prop :=
  on_row_border h i /\ on_col_border w j.
Definition edge_not_corner (h w i j : Z) : Prop :=
  (on_row_border h i /\ ~ on_col_border w j)
  \/ (~ on_row_border h i /\ on_col_border w j).
Definition interior (h w i j : Z) : Prop :=
  ~ on_row_border h i /\ ~ on_col_border w j.

(** The claim about the neighborhood as it is written, for the cell
    [(i, j)] of an [h] x [w] grid. *)
Definition neighbors_as_claimed (h w i j : Z) : Prop :=
  exists l,
    get_neighbors i j h w = Ok l
    /\ NoDup l
    /\ (forall p, p ∈ l <-> inside h w p /\ chebyshev p (i, j) = 1)
    /\ (length l <= 8)%nat
    /\ (corner h w i j -> length l = 3%nat)
    /\ (edge_not_corner h w i j -> length l = 5%nat)
    /\ (interior h w i j -> length l = 8%nat).

(** The indicator of a decidable condition. *)
Definition indicator (P : Prop) `{Decision P} : Z := if decide P then 1 else 0.

(** The sum of [f] over the elements of [l]. *)
Definition sumZ {A} (f : A -> Z) (l : list A) : Z :=
  foldr (fun x acc => f x + acc) 0 l.

(** The cost of the written specification, with unary weight 1 and pairwise
    weight 10, for the grid [L], the cell [(i, j)], a list [nb] that
    enumerates its neighborhood and the candidate class [c]. *)
Definition spec_cost (L : ndarray) (nb : list (Z * Z)) (i j c : Z) : Z :=
  - (1 * indicator (c = cell L (i, j))
     + 10 * sumZ (fun n => indicator (c = cell L n)) nb).

(** [c] is the least class index below [n] at which [f] is minimal. *)
Definition least_argmin (f : Z -> Z) (n c : Z) : Prop :=
  0 <= c < n
  /\ (forall c', 0 <= c' < n -> f c <= f c')
  /\ (forall c', 0 <= c' < c -> f c < f c').

(** The [h] x [w] grid whose cells all hold [c]. *)
Definition uniform (h w : nat) (c : Z) : ndarray :=
  {| shape0 := h; shape1 := w; data := replicate (h * w) c |}.

(** The 3 x 3 grid of class 0 with a 1 in the centre, and the 3 x 3 grid
    of class 0. *)
Definition outlier33 : ndarray := NdArray 3 3 [0; 0; 0; 0; 1; 0; 0; 0; 0].
Definition zeros33 : ndarray := NdArray 3 3 [0; 0; 0; 0; 0; 0; 0; 0; 0].

(** [keeps σ Q c]: started in any store that extends [σ], the computation
    [c] ends, whether it returns or raises, in a store that still extends
    [σ]; a value it returns satisfies [Q]. *)
Definition keeps {A} (σ : heap) (Q : A -> Prop) (c : M A) : Prop :=
  forall σ1 r σ2,
    σ `prefix_of` σ1 -> c σ1 = (r, σ2) ->
    σ `prefix_of` σ2 /\ forall x, r = Ok x -> Q x.

(** The local [dst], once bound, points beyond [σ]. *)
Definition dst_fresh (σ : heap) (s : locals) : Prop :=
  forall d, s.1.2 = Some d -> (length σ <= d)%nat.

(** The [k]-th batch of size [m] of a sequence, and the first [q] batches. *)
Definition nth_batch {A} (l : list A) (m k : nat) : list A :=
  take m (drop (k * m) l).
Definition batches {A} (l : list A) (m q : nat) : list (list A) :=
  nth_batch l m <$> seq 0 q.

(** The number of batches for [n] tiles and batches of [m]: [n] over [m],
    rounded up, as [xrange(0, n, m)] counts them. *)
Definition batch_count (n m : nat) : nat :=
  Z.to_nat ((Z.of_nat n - 0 + Z.of_nat m - 1) / Z.of_nat m).

(** A classifier for tiles that are numbers: the label of a tile is the
    tile. *)
Definition echo_classifier (b : list nat) : list Z := Z.of_nat <$> b.

(** The labels that decide the new label of the cell [(i, j)]: its own
    and those of the cells that [get_neighbors] returns. *)
Definition window (a : ndarray) (i j : Z) : list Z :=
  cell a (i, j) :: (cell a <$> neighborhood a i j).

(** How many of the cells [nbs] hold the class [c] in the grid [a]. *)
Definition agreeing (a : ndarray) (nbs : list (Z * Z)) (c : Z) : Z :=
  sumZ (fun n => indicator (c = cell a n)) nbs.

(** The class [c] is a label that [denoise_predictions] can assign. *)
Definition in_range (class_n c : Z) : Prop := 0 <= c < class_n.

(** The transposed grid: the entry at row [j], column [i] is the entry of
    [a] at row [i], column [j]. *)
Definition transpose (a : ndarray) : ndarray :=
  {| shape0 := shape1 a;
     shape1 := shape0 a;
     data := (fun k : nat =>
                cell a (Z.of_nat (k mod shape0 a), Z.of_nat (k / shape0 a)))
             <$> seq 0 (shape1 a * shape0 a) |}.

(** ** Reasoning about the runtime model *)

Section MonadLaws.
Context {A B : Type}.

Lemma bind_ok (c : M A) (k : A -> M B) σ a σ' :
  c σ = (Ok a, σ') -> bind c k σ = k a σ'.
Proof. unfold bind. intros ->. reflexivity. Qed.

Lemma bind_raise (c : M A) (k : A -> M B) σ e σ' :
  c σ = (Raise e, σ') -> bind c k σ = (Raise e, σ').
Proof. unfold bind. intros ->. reflexivity. Qed.

Lemma lift_ok (r : result A) (a : A) σ : r = Ok a -> lift r σ = (Ok a, σ).
Proof. intros ->. reflexivity. Qed.
End MonadLaws.

Lemma range_seq (n : Z) : range n = Z.of_nat <$> seq 0 (Z.to_nat n).
Proof.
  unfold range, seqZ. apply list_fmap_ext. intros _ k _. lia.
Qed.

Lemma length_range (n : Z) : length (range n) = Z.to_nat n.
Proof. rewrite range_seq, length_fmap, length_seq. reflexivity. Qed.

Lemma lookup_range (n : Z) (k : nat) :
  (k < Z.to_nat n)%nat -> range n !! k = Some (Z.of_nat k).
Proof.
  intros Hk. rewrite range_seq, list_lookup_fmap, lookup_seq_lt by done.
  reflexivity.
Qed.

(** The invariant rule for [for x in range(n)]: an invariant indexed by the
    number of completed iterations, kept by every iteration, holds at the
    end, and the loop raises nothing. *)
Lemma for_range_inv {St} (I : nat -> St -> heap -> Prop) (n : Z)
    (body : Z -> St -> M St) (s : St) (σ : heap) :
  I O s σ ->
  (forall (k : nat) s1 σ1, (k < Z.to_nat n)%nat -> I k s1 σ1 ->
     exists s2 σ2, body (Z.of_nat k) s1 σ1 = (Ok s2, σ2) /\ I (S k) s2 σ2) ->
  exists s' σ', for_each (range n) body s σ = (Ok s', σ') /\ I (Z.to_nat n) s' σ'.
Proof.
  rewrite range_seq. generalize (Z.to_nat n) as m. clear n. intros m H0 Hstep.
  assert (Hgen : forall len start s1 σ1, (start + len = m)%nat -> I start s1 σ1 ->
            exists s' σ', for_each (Z.of_nat <$> seq start len) body s1 σ1 = (Ok s', σ')
                          /\ I m s' σ').
  { induction len as [|len IH]; intros start s1 σ1 Hm HI; simpl.
    - exists s1, σ1. split; [reflexivity|]. replace m with start by lia. exact HI.
    - destruct (Hstep start s1 σ1) as (s2 & σ2 & Hb & HI2); [lia|exact HI|].
      rewrite (bind_ok _ _ _ _ _ Hb). apply IH; [lia|exact HI2]. }
  apply Hgen; [lia|exact H0].
Qed.

(** ** [np.argmin]: the first index of the minimum *)

Lemma argmin_from_first_min (v pre : list Z) (best_i : nat) (best : Z) :
  pre !! best_i = Some best ->
  (forall j x, pre !! j = Some x -> best <= x) ->
  (forall j x, (j < best_i)%nat -> pre !! j = Some x -> best < x) ->
  first_min (pre ++ v) (argmin_from best_i best (length pre) v).
Proof.
  revert pre best_i best.
  induction v as [|x v IH]; intros pre best_i best Hbest Hle Hlt; simpl.
  - rewrite app_nil_r. exists best. auto.
  - assert (Hlen : length (pre ++ [x]) = S (length pre))
      by (rewrite length_app; simpl; lia).
    replace (pre ++ x :: v) with ((pre ++ [x]) ++ v)
      by (rewrite <- app_assoc; reflexivity).
    rewrite <- Hlen.
    destruct (Z.ltb_spec x best) as [Hx|Hx]; apply IH.
    + rewrite lookup_app_r by lia.
      replace (length pre - length pre)%nat with O by lia. reflexivity.
    + intros j y Hj. apply lookup_app_Some in Hj as [Hj|[_ Hj]].
      * specialize (Hle _ _ Hj). lia.
      * apply list_lookup_singleton_Some in Hj as [_ <-]. lia.
    + intros j y Hjlt Hj. rewrite lookup_app_l in Hj by lia.
      specialize (Hle _ _ Hj). lia.
    + rewrite lookup_app_l by (apply lookup_lt_Some in Hbest; lia). exact Hbest.
    + intros j y Hj. apply lookup_app_Some in Hj as [Hj|[_ Hj]].
      * eauto.
      * apply list_lookup_singleton_Some in Hj as [_ <-]. lia.
    + intros j y Hjlt Hj.
      assert (j < length pre)%nat by (apply lookup_lt_Some in Hbest; lia).
      rewrite lookup_app_l in Hj by lia. eauto.
Qed.

Lemma argmin_first_min (v : list Z) : v <> [] -> first_min v (argmin v).
Proof.
  destruct v as [|x v]; [congruence|]. intros _. unfold argmin.
  apply (argmin_from_first_min v [x] 0 x).
  - reflexivity.
  - intros j y Hj. apply list_lookup_singleton_Some in Hj as [_ <-]. lia.
  - intros j y Hj. lia.
Qed.

Lemma first_min_lt_length (v : list Z) (r : nat) :
  first_min v r -> (r < length v)%nat.
Proof. intros (m & Hm & _). eapply lookup_lt_Some, Hm. Qed.

Lemma first_min_unique (v : list Z) (r1 r2 : nat) :
  first_min v r1 -> first_min v r2 -> r1 = r2.
Proof.
  intros (m1 & H1 & Hle1 & Hlt1) (m2 & H2 & Hle2 & Hlt2).
  destruct (Nat.lt_trichotomy r1 r2) as [Hlt|[Heq|Hlt]]; [|exact Heq|].
  - specialize (Hlt2 _ _ Hlt H1). specialize (Hle1 _ _ H2). lia.
  - specialize (Hlt1 _ _ Hlt H2). specialize (Hle2 _ _ H1). lia.
Qed.

(** ** [get_neighbors] keeps the samples inside the image, in order *)

Lemma outside_false h w p : outside h w p = false <-> inside h w p.
Proof.
  unfold outside, inside. rewrite !orb_false_iff.
  rewrite !Z.ltb_ge, !Z.gtb_ltb, !Z.ltb_ge. lia.
Qed.

Lemma outside_true h w p : outside h w p = true <-> ~ inside h w p.
Proof.
  rewrite <- outside_false. destruct (outside h w p); split; congruence.
Qed.

Lemma prune_filter h w (n : nat) (l : list (Z * Z)) :
  (n <= length l)%nat ->
  prune h w n l = Ok (filter (inside h w) (take n l) ++ drop n l).
Proof.
  revert l. induction n as [|n IH]; intros l Hn; simpl.
  - rewrite drop_0. reflexivity.
  - destruct (lookup_lt_is_Some_2 l n) as [x Hx]; [lia|].
    rewrite Hx. rewrite (take_S_r _ _ _ Hx), filter_app.
    destruct (outside h w x) eqn:Hout.
    + rewrite IH by (rewrite length_delete by eauto; lia).
      rewrite delete_take_drop.
      rewrite take_app_le by (rewrite length_take; lia).
      rewrite take_take, Nat.min_id.
      rewrite drop_app_length' by (rewrite length_take; lia).
      rewrite filter_cons_False by (apply outside_true; exact Hout).
      rewrite filter_nil, app_nil_r. reflexivity.
    + rewrite IH by lia.
      rewrite filter_cons_True by (apply outside_false; exact Hout).
      rewrite filter_nil, (drop_S _ _ _ Hx), <- app_assoc. reflexivity.
Qed.

Lemma get_neighbors_filter (i j h w : Z) :
  get_neighbors i j h w = Ok (filter (inside h w) (samples i j)).
Proof.
  unfold get_neighbors. rewrite prune_filter by reflexivity.
  simpl take. simpl drop. rewrite app_nil_r. reflexivity.
Qed.

(** ** One epoch as a function of the grid before it *)

Lemma wf_epoch_step class_n a : wf_array (epoch_step class_n a).
Proof. unfold wf_array. simpl. rewrite length_fmap, length_seq. reflexivity. Qed.

Lemma flat_index_lt (h w i j : nat) :
  (i < h)%nat -> (j < w)%nat -> (i * w + j < h * w)%nat.
Proof. nia. Qed.

Lemma cell_epoch_step class_n a i j :
  inside (height a) (width a) (i, j) ->
  cell (epoch_step class_n a) (i, j) = new_label class_n a i j.
Proof.
  unfold inside, height, width, cell. simpl. intros [Hi Hj].
  rewrite list_lookup_fmap, lookup_seq_lt by (apply flat_index_lt; lia).
  simpl. rewrite Nat.div_add_l, Nat.div_small, Nat.add_0_r by lia.
  rewrite Nat.add_comm, Nat.Div0.mod_add, Nat.mod_small by lia.
  rewrite !Z2Nat.id by lia. reflexivity.
Qed.

Lemma norm_index_inside (n : nat) (i : Z) :
  0 <= i < Z.of_nat n -> norm_index n i = Some (Z.to_nat i).
Proof. intros H. unfold norm_index. rewrite decide_True by exact H. reflexivity. Qed.

Lemma offset_inside a p :
  inside (height a) (width a) p ->
  offset a p = Some (Z.to_nat p.1 * shape1 a + Z.to_nat p.2)%nat.
Proof.
  intros [H1 H2]. unfold offset.
  rewrite (norm_index_inside _ _ H1), (norm_index_inside _ _ H2). reflexivity.
Qed.

Lemma offset_inside_lt a p :
  inside (height a) (width a) p ->
  (Z.to_nat p.1 * shape1 a + Z.to_nat p.2 < shape0 a * shape1 a)%nat.
Proof.
  intros [H1 H2]. unfold height, width in *. apply flat_index_lt; lia.
Qed.

Lemma neighborhood_inside a i j :
  Forall (inside (height a) (width a)) (neighborhood a i j).
Proof.
  apply Forall_forall. intros p Hp.
  apply list_elem_of_filter in Hp as [Hp _]. exact Hp.
Qed.

Section Reads.
Variables (σ : heap) (src : loc) (a : ndarray).
Hypothesis Hsrc : σ !! src = Some a.
Hypothesis Hwf : wf_array a.

Lemma deref_ok : deref src σ = (Ok a, σ).
Proof. unfold deref. rewrite Hsrc. reflexivity. Qed.

Lemma shape_ok : shape src σ = (Ok (height a, width a), σ).
Proof. unfold shape. rewrite (bind_ok _ _ _ _ _ deref_ok). reflexivity. Qed.

Lemma getitem_ok p :
  inside (height a) (width a) p -> getitem src p σ = (Ok (cell a p), σ).
Proof.
  intros Hp. unfold getitem. rewrite (bind_ok _ _ _ _ _ deref_ok).
  rewrite (offset_inside _ _ Hp). unfold cell.
  destruct (lookup_lt_is_Some_2 (data a)
              (Z.to_nat p.1 * shape1 a + Z.to_nat p.2)) as [v Hv].
  { rewrite Hwf. apply offset_inside_lt, Hp. }
  rewrite Hv. reflexivity.
Qed.

Lemma read_all_ok (ps : list (Z * Z)) :
  Forall (inside (height a) (width a)) ps ->
  read_all src ps σ = (Ok (cell a <$> ps), σ).
Proof.
  induction 1 as [|p ps Hp _ IH]; simpl; [reflexivity|].
  rewrite (bind_ok _ _ _ _ _ (getitem_ok p Hp)).
  rewrite (bind_ok _ _ _ _ _ IH). reflexivity.
Qed.

Lemma cost_ok (i j c src_val : Z) :
  src_val = cell a (i, j) ->
  cost c src_val src (neighborhood a i j) σ = (Ok (cost_at a i j c), σ).
Proof.
  intros ->. unfold cost.
  rewrite (bind_ok _ _ _ _ _ (read_all_ok _ (neighborhood_inside a i j))).
  reflexivity.
Qed.
End Reads.

(** ** The loops of one epoch *)

Lemma lookup_epoch_step class_n a (i j : nat) :
  (i < shape0 a)%nat -> (j < shape1 a)%nat ->
  data (epoch_step class_n a) !! (i * shape1 a + j)%nat
  = Some (new_label class_n a (Z.of_nat i) (Z.of_nat j)).
Proof.
  intros Hi Hj. simpl.
  rewrite list_lookup_fmap, lookup_seq_lt by (apply flat_index_lt; lia).
  simpl. rewrite Nat.div_add_l, Nat.div_small, Nat.add_0_r by lia.
  rewrite Nat.add_comm, Nat.Div0.mod_add, Nat.mod_small by lia.
  reflexivity.
Qed.

Lemma filled_all class_n a dat :
  filled class_n a (shape0 a * shape1 a) dat ->
  dat = data (epoch_step class_n a).
Proof.
  intros [Hlen Hk]. apply list_eq. intros k.
  destruct (decide (k < shape0 a * shape1 a)%nat) as [Hlt|Hge]; [auto|].
  rewrite !lookup_ge_None_2; [reflexivity| |lia].
  pose proof (wf_epoch_step class_n a) as Hwf. unfold wf_array in Hwf.
  simpl shape0 in Hwf. simpl shape1 in Hwf. lia.
Qed.

Lemma filled_step class_n a (i j : nat) dat :
  (i < shape0 a)%nat -> (j < shape1 a)%nat ->
  filled class_n a (i * shape1 a + j) dat ->
  filled class_n a (i * shape1 a + S j)
    (<[(i * shape1 a + j)%nat := new_label class_n a (Z.of_nat i) (Z.of_nat j)]> dat).
Proof.
  intros Hi Hj [Hlen Hk]. split; [rewrite length_insert; exact Hlen|].
  intros k Hlt. destruct (decide (k = i * shape1 a + j)%nat) as [->|Hne].
  - rewrite list_lookup_insert_eq by (rewrite Hlen; apply flat_index_lt; lia).
    symmetry. apply lookup_epoch_step; assumption.
  - rewrite list_lookup_insert_ne by congruence. apply Hk. lia.
Qed.

(** A write into the array allocated last. *)
Lemma setitem_last (σ0 : heap) (d : ndarray) (p : Z * Z) (v : Z) :
  inside (height d) (width d) p ->
  setitem (length σ0) p v (σ0 ++ [d])
  = (Ok tt,
     σ0 ++ [{| shape0 := shape0 d; shape1 := shape1 d;
               data := <[(Z.to_nat p.1 * shape1 d + Z.to_nat p.2)%nat := v]>
                         (data d) |}]).
Proof.
  intros Hp. unfold setitem.
  assert (Hd : deref (length σ0) (σ0 ++ [d]) = (Ok d, σ0 ++ [d])).
  { unfold deref. rewrite lookup_app_r, Nat.sub_diag by lia. reflexivity. }
  rewrite (bind_ok _ _ _ _ _ Hd), (offset_inside _ _ Hp).
  unfold store. rewrite decide_True by (rewrite length_app; simpl; lia).
  rewrite insert_app_r_alt, Nat.sub_diag by lia. reflexivity.
Qed.

Section Epoch.
Variables (class_n : Z) (src : loc) (a : ndarray) (σ0 : heap).
Hypothesis Hsrc : σ0 !! src = Some a.
Hypothesis Hwf : wf_array a.
Hypothesis Hclass : 1 <= class_n.

Lemma src_in_extended d : (σ0 ++ [d]) !! src = Some a.
Proof. rewrite lookup_app_l by (eapply lookup_lt_Some, Hsrc). exact Hsrc. Qed.

Lemma class_loop_ok σ i j costs :
  σ !! src = Some a ->
  inside (height a) (width a) (i, j) ->
  length costs = Z.to_nat class_n ->
  for_each (range class_n)
    (fun class_i costs =>
       let* src_val := getitem src (i, j) in
       let* c := cost class_i src_val src (neighborhood a i j) in
       lift (setitem1 costs class_i c))
    costs σ
  = (Ok (cost_at a i j <$> range class_n), σ).
Proof.
  intros Hσ Hin Hlen.
  match goal with |- for_each _ ?b _ _ = _ => set (body := b) end.
  destruct (for_range_inv
    (fun k (cs : list Z) σ' =>
       σ' = σ /\ length cs = Z.to_nat class_n
       /\ forall m, (m < k)%nat -> cs !! m = Some (cost_at a i j (Z.of_nat m)))
    class_n body costs σ)
    as (cs & σ' & Hrun & -> & Hlen' & Hcs).
  - split; [reflexivity|]. split; [exact Hlen|]. intros m Hm. lia.
  - intros k cs σ1 Hk (-> & Hl & Hcs).
    eexists _, _. split.
    + unfold body.
      rewrite (bind_ok _ _ _ _ _ (getitem_ok _ _ _ Hσ Hwf _ Hin)).
      rewrite (bind_ok _ _ _ _ _ (cost_ok _ _ _ Hσ Hwf i j _ _ eq_refl)).
      unfold setitem1.
      rewrite norm_index_inside by lia. rewrite Nat2Z.id. reflexivity.
    + split; [reflexivity|]. split; [rewrite length_insert; exact Hl|].
      intros m Hm. destruct (decide (m = k)) as [->|Hne].
      * apply list_lookup_insert_eq. lia.
      * rewrite list_lookup_insert_ne by congruence. apply Hcs. lia.
  - rewrite Hrun. f_equal. f_equal. apply list_eq. intros m.
    destruct (decide (m < Z.to_nat class_n)%nat) as [Hlt|Hge].
    + rewrite (Hcs _ Hlt), list_lookup_fmap, lookup_range by exact Hlt.
      reflexivity.
    + rewrite !lookup_ge_None_2; [reflexivity| |lia].
      rewrite length_fmap, length_range. lia.
Qed.

Lemma pixel_ok (i j : nat) costs dat :
  (i < shape0 a)%nat -> (j < shape1 a)%nat ->
  length costs = Z.to_nat class_n ->
  length dat = (shape0 a * shape1 a)%nat ->
  pixel src (length σ0) class_n (height a) (width a) (Z.of_nat i) (Z.of_nat j) costs
    (σ0 ++ [with_data a dat])
  = (Ok (cost_at a (Z.of_nat i) (Z.of_nat j) <$> range class_n),
     σ0 ++ [with_data a (<[(i * shape1 a + j)%nat :=
                      new_label class_n a (Z.of_nat i) (Z.of_nat j)]> dat)]).
Proof.
  intros Hi Hj Hlen Hdat. unfold pixel.
  assert (Hin : inside (height a) (width a) (Z.of_nat i, Z.of_nat j))
    by (unfold inside, height, width; simpl; lia).
  rewrite (bind_ok _ _ _ _ _ (lift_ok _ _ _ (get_neighbors_filter _ _ _ _))).
  fold (neighborhood a (Z.of_nat i) (Z.of_nat j)).
  rewrite (bind_ok _ _ _ _ _
             (class_loop_ok _ _ _ _ (src_in_extended _) Hin Hlen)).
  assert (Hne : cost_at a (Z.of_nat i) (Z.of_nat j) <$> range class_n <> []).
  { intros Heq. apply (f_equal length) in Heq.
    rewrite length_fmap, length_range in Heq. simpl in Heq. lia. }
  unfold np_argmin at 1.
  destruct (cost_at a (Z.of_nat i) (Z.of_nat j) <$> range class_n)
    as [|c0 cs] eqn:Hcosts; [congruence|].
  rewrite <- Hcosts. fold (new_label class_n a (Z.of_nat i) (Z.of_nat j)).
  rewrite (bind_ok _ _ _ _ _ (lift_ok _ _ _ eq_refl)).
  rewrite (bind_ok _ _ _ _ _ (setitem_last σ0 (with_data a dat) _ _ Hin)).
  unfold with_data. simpl. rewrite !Nat2Z.id. reflexivity.
Qed.

Lemma row_ok (i : nat) costs dat :
  (i < shape0 a)%nat ->
  length costs = Z.to_nat class_n ->
  filled class_n a (i * shape1 a) dat ->
  exists costs' dat',
    for_each (range (width a))
      (fun j costs =>
         pixel src (length σ0) class_n (height a) (width a) (Z.of_nat i) j costs)
      costs (σ0 ++ [with_data a dat])
    = (Ok costs', σ0 ++ [with_data a dat'])
    /\ length costs' = Z.to_nat class_n
    /\ filled class_n a (S i * shape1 a) dat'.
Proof.
  intros Hi Hlen Hfill.
  match goal with |- context [for_each _ ?b _ _] => set (body := b) end.
  destruct (for_range_inv
    (fun k (cs : list Z) σ' =>
       length cs = Z.to_nat class_n
       /\ exists dat', σ' = σ0 ++ [with_data a dat']
                      /\ filled class_n a (i * shape1 a + k) dat')
    (width a) body costs (σ0 ++ [with_data a dat]))
    as (cs & σ' & Hrun & Hlen' & dat' & -> & Hfill').
  - split; [exact Hlen|]. exists dat. rewrite Nat.add_0_r. auto.
  - intros k cs σ1 Hk (Hl & dat1 & -> & Hf). unfold width in Hk.
    rewrite Nat2Z.id in Hk. unfold body.
    rewrite (pixel_ok i k cs dat1 Hi Hk Hl (proj1 Hf)).
    eexists _, _. split; [reflexivity|].
    split; [rewrite length_fmap, length_range; reflexivity|].
    eexists. split; [reflexivity|].
    apply filled_step; assumption.
  - exists cs, dat'. split; [exact Hrun|]. split; [exact Hlen'|].
    unfold width in Hfill'. rewrite Nat2Z.id in Hfill'.
    replace (S i * shape1 a)%nat with (i * shape1 a + shape1 a)%nat by lia.
    exact Hfill'.
Qed.

Lemma grid_ok costs dat :
  length costs = Z.to_nat class_n ->
  length dat = (shape0 a * shape1 a)%nat ->
  exists costs',
    for_each (range (height a))
      (fun i costs =>
         for_each (range (width a))
           (fun j costs =>
              pixel src (length σ0) class_n (height a) (width a) i j costs)
           costs)
      costs (σ0 ++ [with_data a dat])
    = (Ok costs', σ0 ++ [epoch_step class_n a])
    /\ length costs' = Z.to_nat class_n.
Proof.
  intros Hlen Hdat.
  match goal with |- context [for_each _ ?b _ _] => set (body := b) end.
  destruct (for_range_inv
    (fun k (cs : list Z) σ' =>
       length cs = Z.to_nat class_n
       /\ exists dat', σ' = σ0 ++ [with_data a dat']
                      /\ filled class_n a (k * shape1 a) dat')
    (height a) body costs (σ0 ++ [with_data a dat]))
    as (cs & σ' & Hrun & Hlen' & dat' & -> & Hfill').
  - split; [exact Hlen|]. exists dat. split; [reflexivity|].
    split; [exact Hdat|]. intros k Hk. simpl in Hk. lia.
  - intros k cs σ1 Hk (Hl & dat1 & -> & Hf). unfold height in Hk.
    rewrite Nat2Z.id in Hk. unfold body.
    destruct (row_ok k cs dat1 Hk Hl Hf) as (cs' & dat2 & Hrow & Hl' & Hf').
    rewrite Hrow. eexists _, _. split; [reflexivity|]. eauto.
  - exists cs. split; [|exact Hlen'].
    rewrite Hrun. unfold height in Hfill'. rewrite Nat2Z.id in Hfill'.
    rewrite (filled_all _ _ _ Hfill'). reflexivity.
Qed.

(** One iteration of the epoch loop allocates one array, fills it with
    the step of the grid at [src], and leaves the rest of the store
    alone. *)
Lemma epoch_ok (e : Z) (old : option loc) costs :
  length costs = Z.to_nat class_n ->
  exists costs',
    epoch class_n (height a) (width a) e (src, old, costs) σ0
    = (Ok (length σ0, Some (length σ0), costs'),
       σ0 ++ [epoch_step class_n a])
    /\ length costs' = Z.to_nat class_n.
Proof.
  intros Hlen. unfold epoch.
  assert (Hz : np_zeros_like src σ0
               = (Ok (length σ0), σ0 ++ [with_data a (replicate (shape0 a * shape1 a) 0)])).
  { unfold np_zeros_like. rewrite (bind_ok _ _ _ _ _ (deref_ok _ _ _ Hsrc)).
    reflexivity. }
  rewrite (bind_ok _ _ _ _ _ Hz).
  destruct (grid_ok costs (replicate (shape0 a * shape1 a) 0) Hlen)
    as (cs & Hrun & Hl); [apply length_replicate|].
  rewrite (bind_ok _ _ _ _ _ Hrun). exists cs. split; [reflexivity|exact Hl].
Qed.
End Epoch.

(** ** The epoch loop *)

Lemma shape_iterate class_n k a :
  shape0 (iterate class_n k a) = shape0 a
  /\ shape1 (iterate class_n k a) = shape1 a.
Proof. induction k as [|k [IH0 IH1]]; simpl; auto. Qed.

Lemma wf_iterate class_n k a : wf_array a -> wf_array (iterate class_n k a).
Proof. destruct k; simpl; [auto|intros _; apply wf_epoch_step]. Qed.

Lemma trajectory_S class_n a k :
  trajectory class_n a (S k)
  = trajectory class_n a k ++ [epoch_step class_n (iterate class_n k a)].
Proof. unfold trajectory. rewrite seq_S, fmap_app. reflexivity. Qed.

Lemma length_trajectory class_n a k : length (trajectory class_n a k) = k.
Proof. unfold trajectory. rewrite length_fmap, length_seq. reflexivity. Qed.

Lemma lookup_trajectory class_n a k m :
  (m < k)%nat -> trajectory class_n a k !! m = Some (iterate class_n (S m) a).
Proof.
  intros Hm. unfold trajectory.
  rewrite list_lookup_fmap, lookup_seq_lt by exact Hm. reflexivity.
Qed.

Section Epochs.
Variables (class_n : Z) (src : loc) (a : ndarray) (σ : heap).
Hypothesis Hsrc : σ !! src = Some a.
Hypothesis Hwf : wf_array a.
Hypothesis Hclass : 1 <= class_n.

Lemma lookup_src_after k :
  (σ ++ trajectory class_n a k) !! src_after (length σ) src k
  = Some (iterate class_n k a).
Proof.
  destruct k as [|m]; simpl src_after.
  - rewrite lookup_app_l by (eapply lookup_lt_Some, Hsrc). exact Hsrc.
  - rewrite lookup_app_r by lia.
    replace (length σ + m - length σ)%nat with m by lia.
    apply lookup_trajectory. lia.
Qed.

Lemma epochs_loop_ok (epochs : Z) :
  exists costs,
    epochs_loop src class_n epochs σ
    = (Ok (src_after (length σ) src (Z.to_nat epochs),
           dst_after (length σ) (Z.to_nat epochs), costs),
       σ ++ trajectory class_n a (Z.to_nat epochs)).
Proof.
  unfold epochs_loop.
  rewrite (bind_ok _ _ _ _ _ (shape_ok _ _ _ Hsrc)).
  assert (Hz : np_zeros class_n = Ok (replicate (Z.to_nat class_n) 0)).
  { unfold np_zeros. rewrite decide_False by lia. reflexivity. }
  rewrite (bind_ok _ _ _ _ _ (lift_ok _ _ _ Hz)).
  destruct (for_range_inv
    (fun k (s : locals) σ' =>
       s.1.1 = src_after (length σ) src k
       /\ s.1.2 = dst_after (length σ) k
       /\ length s.2 = Z.to_nat class_n
       /\ σ' = σ ++ trajectory class_n a k)
    epochs (epoch class_n (height a) (width a))
    (src, None, replicate (Z.to_nat class_n) 0) σ)
    as ([[s d] cs] & σ' & Hrun & Hs & Hd & _ & ->).
  - simpl. rewrite length_replicate, app_nil_r. auto.
  - intros k [[s d] cs] σ1 Hk (Hs & Hd & Hl & ->). simpl in Hs, Hd, Hl.
    subst s d.
    destruct (shape_iterate class_n k a) as [H0 H1].
    destruct (epoch_ok class_n _ _ _ (lookup_src_after k)
                (wf_iterate _ _ _ Hwf) Hclass (Z.of_nat k)
                (dst_after (length σ) k) cs Hl) as (cs' & Hrun & Hl').
    unfold height, width in Hrun. rewrite H0, H1 in Hrun.
    fold (height a) (width a) in Hrun. rewrite Hrun.
    rewrite length_app, length_trajectory.
    eexists _, _. split; [reflexivity|]. simpl.
    rewrite trajectory_S, app_assoc. auto.
  - simpl in Hs, Hd. subst s d. exists cs. exact Hrun.
Qed.

(** With at least one epoch the call returns the array allocated last,
    which holds [epochs] applications of the step to the input. *)
Lemma denoise_predictions_ok (epochs : Z) :
  1 <= epochs ->
  denoise_predictions src class_n epochs σ
  = (Ok (length σ + Z.to_nat epochs - 1)%nat,
     σ ++ trajectory class_n a (Z.to_nat epochs)).
Proof.
  intros He. unfold denoise_predictions.
  destruct (epochs_loop_ok epochs) as (cs & Hrun).
  rewrite (bind_ok _ _ _ _ _ Hrun).
  destruct (Z.to_nat epochs) as [|m] eqn:Hn; [lia|]. simpl.
  unfold ret. repeat f_equal. lia.
Qed.

Lemma denoise_returns_iterate (epochs : Z) :
  1 <= epochs ->
  exists r σ',
    denoise_predictions src class_n epochs σ = (Ok r, σ')
    /\ r = (length σ + Z.to_nat epochs - 1)%nat
    /\ σ' = σ ++ trajectory class_n a (Z.to_nat epochs)
    /\ σ' !! r = Some (iterate class_n (Z.to_nat epochs) a).
Proof.
  intros He. eexists _, _.
  split; [apply denoise_predictions_ok, He|].
  split; [reflexivity|]. split; [reflexivity|].
  pose proof (lookup_src_after (Z.to_nat epochs)) as Hlook.
  destruct (Z.to_nat epochs) as [|m] eqn:Hm; [lia|].
  simpl in Hlook.
  replace (length σ + S m - 1)%nat with (length σ + m)%nat by lia.
  exact Hlook.
Qed.
End Epochs.

(** ** The neighborhood of a cell *)

Lemma samples_chebyshev (i j : Z) (p : Z * Z) :
  p ∈ samples i j <-> chebyshev p (i, j) = 1.
Proof.
  destruct p as [x y]. unfold samples, chebyshev. simpl. split.
  - rewrite !elem_of_cons, elem_of_nil.
    intros H. repeat destruct H as [H|H]; try tauto; injection H; lia.
  - intros H.
    assert (Hx : x = i - 1 \/ x = i \/ x = i + 1) by lia.
    assert (Hy : y = j - 1 \/ y = j \/ y = j + 1) by lia.
    destruct Hx as [-> | [-> | ->]]; destruct Hy as [-> | [-> | ->]];
      try (exfalso; lia);
      rewrite !elem_of_cons; repeat first [left; reflexivity | right].
Qed.

Lemma NoDup_samples (i j : Z) : NoDup (samples i j).
Proof.
  unfold samples.
  repeat (apply NoDup_cons; split;
          [rewrite ?elem_of_cons, elem_of_nil; intros H;
           repeat destruct H as [H|H]; try tauto; injection H; lia|]).
  apply NoDup_nil. trivial.
Qed.

Ltac count_samples :=
  unfold samples;
  repeat first
    [ rewrite filter_cons_True by (unfold inside; simpl; lia)
    | rewrite filter_cons_False by (unfold inside; simpl; lia) ];
  rewrite filter_nil; reflexivity.

Lemma count_corner (h w i j : Z) :
  2 <= h -> 2 <= w -> corner h w i j ->
  length (filter (inside h w) (samples i j)) = 3%nat.
Proof.
  unfold corner, on_row_border, on_col_border.
  intros Hh Hw [[-> | ->] [-> | ->]]; count_samples.
Qed.

Lemma count_edge (h w i j : Z) :
  2 <= h -> 2 <= w -> inside h w (i, j) -> edge_not_corner h w i j ->
  length (filter (inside h w) (samples i j)) = 5%nat.
Proof.
  unfold edge_not_corner, on_row_border, on_col_border, inside. simpl.
  intros Hh Hw Hin [[[-> | ->] Hc] | [Hr [-> | ->]]]; count_samples.
Qed.

Lemma count_interior (h w i j : Z) :
  inside h w (i, j) -> interior h w i j ->
  length (filter (inside h w) (samples i j)) = 8%nat.
Proof.
  unfold interior, on_row_border, on_col_border, inside. simpl.
  intros Hin [Hr Hc]. count_samples.
Qed.

(** ** Properties of the denoiser *)

(** When the loop does not iterate, [dst] stays unbound and the return
    raises. *)
Lemma unbound_without_iteration (σ : heap) (src : loc) (a : ndarray)
    (class_n epochs : Z) :
  σ !! src = Some a -> 0 <= class_n -> epochs <= 0 ->
  denoise_predictions src class_n epochs σ = (Raise UnboundLocalError, σ).
Proof.
  intros Hsrc Hc He.
  assert (Hloop : epochs_loop src class_n epochs σ
                  = (Ok (src, None, replicate (Z.to_nat class_n) 0), σ)).
  { unfold epochs_loop. rewrite (bind_ok _ _ _ _ _ (shape_ok _ _ _ Hsrc)).
    unfold np_zeros. rewrite decide_False by lia.
    rewrite range_seq. replace (Z.to_nat epochs) with O by lia. reflexivity. }
  unfold denoise_predictions. rewrite (bind_ok _ _ _ _ _ Hloop). reflexivity.
Qed.

(** C1: with [epochs = 0] the denoiser is claimed to return its input.
    The code does not: without an iteration the local [dst] is never bound,
    and the [return dst] that ends [denoise_predictions] raises
    [UnboundLocalError], for every grid and every number of classes. *)
Theorem denoise_no_epoch_raises (σ : heap) (src : loc) (a : ndarray)
    (class_n epochs : Z) :
  σ !! src = Some a -> 0 <= class_n -> epochs <= 0 ->
  denoise_predictions src class_n epochs σ = (Raise UnboundLocalError, σ).
Proof.
  intros Hsrc Hc He. apply (unbound_without_iteration σ src a); assumption.
Qed.

(** On the 2 x 2 grid [[0, 1], [1, 0]] with two classes and no epoch. *)
Lemma denoise_zero_epochs_unbound :
  denoise_predictions 0%nat 2 0 [NdArray 2 2 [0; 1; 1; 0]]
  = (Raise UnboundLocalError, [NdArray 2 2 [0; 1; 1; 0]]).
Proof.
  apply (denoise_no_epoch_raises [NdArray 2 2 [0; 1; 1; 0]] 0%nat
           (NdArray 2 2 [0; 1; 1; 0]) 2 0).
  - reflexivity.
  - lia.
  - lia.
Defined.

(** C4, as written, fails: the only cell of a 1 x 1 grid is a corner and
    has no neighbor at all. *)
Lemma neighbors_as_claimed_fails :
  ~ (forall h w i j, inside h w (i, j) -> neighbors_as_claimed h w i j).
Proof.
  intros H. destruct (H 1 1 0 0) as (l & Hl & _ & _ & _ & Hcorner & _).
  - unfold inside. simpl. lia.
  - vm_compute in Hl. injection Hl as <-.
    assert (Hc : corner 1 1 0 0) by (split; left; reflexivity).
    specialize (Hcorner Hc). discriminate Hcorner.
Qed.

(** C4, amended: for every cell of the grid [get_neighbors] returns, without
    repetition, exactly the cells inside the grid at Chebyshev distance 1:
    at most 8, no index wraps around and none lies outside.  In a grid
    with at least two rows and two columns a corner cell has 3 of them and
    a border cell that is no corner has 5; an interior cell has 8. *)
Theorem neighbors_clipped_chebyshev (h w i j : Z) :
  inside h w (i, j) ->
  exists l,
    get_neighbors i j h w = Ok l
    /\ NoDup l
    /\ (forall p, p ∈ l <-> inside h w p /\ chebyshev p (i, j) = 1)
    /\ (length l <= 8)%nat
    /\ (2 <= h -> 2 <= w -> corner h w i j -> length l = 3%nat)
    /\ (2 <= h -> 2 <= w -> edge_not_corner h w i j -> length l = 5%nat)
    /\ (interior h w i j -> length l = 8%nat).
Proof.
  intros Hin. exists (filter (inside h w) (samples i j)).
  split; [apply get_neighbors_filter|].
  split; [apply NoDup_filter, NoDup_samples|].
  split; [intros p; rewrite list_elem_of_filter, samples_chebyshev; tauto|].
  split; [apply (length_filter (inside h w) (samples i j))|].
  split; [intros; apply count_corner; assumption|].
  split; [intros; apply count_edge; assumption|].
  intros; apply count_interior; assumption.
Qed.

Lemma neighbors_clipped_chebyshev_witness :
  inside 3 3 (0, 0) /\
  exists l,
    get_neighbors 0 0 3 3 = Ok l
    /\ NoDup l
    /\ (forall p, p ∈ l <-> inside 3 3 p /\ chebyshev p (0, 0) = 1)
    /\ (length l <= 8)%nat
    /\ (2 <= 3 -> 2 <= 3 -> corner 3 3 0 0 -> length l = 3%nat)
    /\ (2 <= 3 -> 2 <= 3 -> edge_not_corner 3 3 0 0 -> length l = 5%nat)
    /\ (interior 3 3 0 0 -> length l = 8%nat).
Proof.
  assert (Hin : inside 3 3 (0, 0)) by (unfold inside; simpl; lia).
  split; [exact Hin|]. apply (neighbors_clipped_chebyshev 3 3 0 0 Hin).
Defined.

(** C3: every epoch is a synchronous update.  After any number of
    iterations of the epoch loop the store is the initial one followed by
    one new array per epoch, [src] points to the grid obtained by that
    many applications of the single-epoch step to the input, each array
    being the step of the one before it; the step gives every cell the
    label computed from the grid before the epoch alone.  With at least
    one epoch this grid is the one returned. *)
Theorem epochs_are_synchronous (σ : heap) (src : loc) (a : ndarray)
    (class_n epochs : Z) :
  σ !! src = Some a -> wf_array a -> 1 <= class_n ->
  let e := Z.to_nat epochs in
  (exists s d costs σ',
      epochs_loop src class_n epochs σ = (Ok (s, d, costs), σ')
      /\ σ' = σ ++ trajectory class_n a e
      /\ σ' !! s = Some (iterate class_n e a))
  /\ (forall k, (k < e)%nat ->
        trajectory class_n a e !! k
        = Some (epoch_step class_n (iterate class_n k a)))
  /\ (forall b i j, inside (height b) (width b) (i, j) ->
        cell (epoch_step class_n b) (i, j) = new_label class_n b i j)
  /\ (1 <= epochs ->
      exists r σ',
        denoise_predictions src class_n epochs σ = (Ok r, σ')
        /\ σ' !! r = Some (iterate class_n e a)).
Proof.
  intros Hsrc Hwf Hclass e.
  pose proof (lookup_src_after class_n src a σ Hsrc e) as Hlook.
  split; [|split; [|split]].
  - destruct (epochs_loop_ok class_n src a σ Hsrc Hwf Hclass epochs)
      as (cs & Hrun).
    eexists _, _, _, _. split; [exact Hrun|]. split; [reflexivity|exact Hlook].
  - intros k Hk. apply lookup_trajectory, Hk.
  - intros b i j. apply cell_epoch_step.
  - intros He.
    destruct (denoise_returns_iterate class_n src a σ Hsrc Hwf Hclass epochs He)
      as (r & σ' & Hrun & _ & _ & Hr).
    exists r, σ'. split; [exact Hrun|exact Hr].
Qed.

Lemma epochs_are_synchronous_witness :
  let σ := [NdArray 2 3 [5; 5; 1; 2; 2; 1]] in
  exists r σ',
    denoise_predictions 0%nat 3 2 σ = (Ok r, σ')
    /\ σ' !! r = Some (iterate 3 2 (NdArray 2 3 [5; 5; 1; 2; 2; 1])).
Proof.
  refine (proj2 (proj2 (proj2
    (epochs_are_synchronous [NdArray 2 3 [5; 5; 1; 2; 2; 1]] 0%nat
       (NdArray 2 3 [5; 5; 1; 2; 2; 1]) 3 2 _ _ _))) _).
  - reflexivity.
  - reflexivity.
  - lia.
  - lia.
Defined.

(** *** The cost of the specification *)

Lemma kronecker_delta_indicator (c v : Z) :
  kronecker_delta c v = indicator (c = v).
Proof.
  unfold kronecker_delta, indicator. repeat case_decide; lia.
Qed.

Lemma np_sum_kronecker (L : ndarray) (c : Z) (l : list (Z * Z)) :
  np_sum (kronecker_delta_vec c (cell L <$> l))
  = sumZ (fun n => indicator (c = cell L n)) l.
Proof.
  unfold kronecker_delta_vec, np_sum, sumZ.
  induction l as [|n l IH]; simpl; [reflexivity|].
  rewrite kronecker_delta_indicator. f_equal. exact IH.
Qed.

Lemma sumZ_permutation {A} (f : A -> Z) (l k : list A) :
  l ≡ₚ k -> sumZ f l = sumZ f k.
Proof.
  unfold sumZ. induction 1; simpl; lia.
Qed.

Lemma cost_at_spec_cost (L : ndarray) (nb : list (Z * Z)) (i j c : Z) :
  NoDup nb ->
  (forall p, p ∈ nb <-> inside (height L) (width L) p /\ chebyshev p (i, j) = 1) ->
  cost_at L i j c = spec_cost L nb i j c.
Proof.
  intros Hnd Hnb. unfold cost_at, spec_cost.
  rewrite kronecker_delta_indicator, np_sum_kronecker.
  rewrite (sumZ_permutation _ (neighborhood L i j) nb); [reflexivity|].
  apply NoDup_Permutation.
  - apply NoDup_filter, NoDup_samples.
  - exact Hnd.
  - intros p. unfold neighborhood.
    rewrite list_elem_of_filter, samples_chebyshev, Hnb. tauto.
Qed.

Lemma lookup_fmap_range (f : Z -> Z) (n : Z) (k : nat) (x : Z) :
  (f <$> range n) !! k = Some x <-> (k < Z.to_nat n)%nat /\ x = f (Z.of_nat k).
Proof.
  rewrite list_lookup_fmap. split.
  - intros H. assert (Hk : (k < Z.to_nat n)%nat).
    { destruct (range n !! k) eqn:E; [|discriminate].
      apply lookup_lt_Some in E. rewrite length_range in E. exact E. }
    rewrite lookup_range in H by exact Hk. simpl in H. split; congruence.
  - intros [Hk ->]. rewrite lookup_range by exact Hk. reflexivity.
Qed.

Lemma first_min_least_argmin (f : Z -> Z) (n : Z) (r : nat) :
  first_min (f <$> range n) r -> least_argmin f n (Z.of_nat r).
Proof.
  intros (m & Hm & Hle & Hlt).
  apply lookup_fmap_range in Hm as [Hr ->].
  split; [lia|]. split.
  - intros c' Hc'. apply (Hle (Z.to_nat c')).
    apply lookup_fmap_range. split; [lia|]. rewrite Z2Nat.id by lia. reflexivity.
  - intros c' Hc'. apply (Hlt (Z.to_nat c')); [lia|].
    apply lookup_fmap_range. split; [lia|]. rewrite Z2Nat.id by lia. reflexivity.
Qed.

Lemma least_argmin_first_min (f : Z -> Z) (n c : Z) :
  least_argmin f n c -> first_min (f <$> range n) (Z.to_nat c).
Proof.
  intros (Hc & Hle & Hlt). exists (f c). split; [|split].
  - apply lookup_fmap_range. split; [lia|]. rewrite Z2Nat.id by lia. reflexivity.
  - intros k x Hk. apply lookup_fmap_range in Hk as [Hk ->]. apply Hle. lia.
  - intros k x Hkc Hk. apply lookup_fmap_range in Hk as [Hk ->]. apply Hlt. lia.
Qed.

Lemma costs_nonempty (f : Z -> Z) (n : Z) : 1 <= n -> f <$> range n <> [].
Proof.
  intros Hn Heq. apply (f_equal length) in Heq.
  rewrite length_fmap, length_range in Heq. simpl in Heq. lia.
Qed.

Lemma new_label_least_argmin (class_n : Z) (a : ndarray) (i j : Z) :
  1 <= class_n ->
  least_argmin (cost_at a i j) class_n (new_label class_n a i j).
Proof.
  intros Hn. unfold new_label.
  apply first_min_least_argmin, argmin_first_min, costs_nonempty, Hn.
Qed.

(** A class that qualifies as the least minimiser is the new label. *)
Lemma new_label_unique (class_n : Z) (a : ndarray) (i j c : Z) :
  least_argmin (cost_at a i j) class_n c -> new_label class_n a i j = c.
Proof.
  intros Hc. assert (Hn : 1 <= class_n) by (destruct Hc; lia).
  pose proof (least_argmin_first_min _ _ _ Hc) as H1.
  pose proof (argmin_first_min _ (costs_nonempty (cost_at a i j) _ Hn)) as H2.
  unfold new_label. rewrite (first_min_unique _ _ _ H2 H1).
  destruct Hc. lia.
Qed.

Lemma least_argmin_ext (f g : Z -> Z) (n c : Z) :
  (forall x, f x = g x) -> least_argmin f n c -> least_argmin g n c.
Proof.
  intros Hfg (Hc & Hle & Hlt). split; [exact Hc|].
  split; intros c' Hc'; rewrite <- !Hfg; auto.
Qed.

Lemma lookup_cons_trajectory class_n a e k pre :
  (a :: trajectory class_n a e) !! k = Some pre -> pre = iterate class_n k a.
Proof.
  destruct k as [|k]; simpl; [congruence|]. intros H.
  assert (Hk : (k < e)%nat).
  { apply lookup_lt_Some in H. rewrite length_trajectory in H. exact H. }
  rewrite lookup_trajectory in H by exact Hk. simpl in H. congruence.
Qed.

(** C2: in every epoch every cell receives the least class index that
    minimises the cost of the specification, [-(1 * [c = L(i,j)] + 10 *
    sum over the neighbors n of [c = L(n)])], taken on the grid [L] before
    the epoch and over the cells inside the grid at Chebyshev distance 1;
    and this cost is what [cost] returns for every candidate class. *)
Theorem cost_and_first_minimum (σ : heap) (src : loc) (a : ndarray)
    (class_n epochs : Z) :
  σ !! src = Some a -> wf_array a -> 1 <= class_n -> 1 <= epochs ->
  exists r σ' grids,
    denoise_predictions src class_n epochs σ = (Ok r, σ')
    /\ σ' = σ ++ grids
    /\ length grids = Z.to_nat epochs
    /\ σ' !! r = last grids
    /\ forall k pre post,
         (a :: grids) !! k = Some pre -> grids !! k = Some post ->
         forall i j nb,
           inside (height a) (width a) (i, j) ->
           NoDup nb ->
           (forall p, p ∈ nb <->
                      inside (height a) (width a) p /\ chebyshev p (i, j) = 1) ->
           least_argmin (spec_cost pre nb i j) class_n (cell post (i, j))
           /\ exists neighbors,
                get_neighbors i j (height a) (width a) = Ok neighbors
                /\ forall c σ1 l,
                     σ1 !! l = Some pre ->
                     cost c (cell pre (i, j)) l neighbors σ1
                     = (Ok (spec_cost pre nb i j c), σ1).
Proof.
  intros Hsrc Hwf Hclass He.
  exists (length σ + Z.to_nat epochs - 1)%nat,
         (σ ++ trajectory class_n a (Z.to_nat epochs)),
         (trajectory class_n a (Z.to_nat epochs)).
  split; [apply (denoise_predictions_ok class_n src a σ Hsrc Hwf Hclass), He|].
  split; [reflexivity|]. split; [apply length_trajectory|]. split.
  - rewrite last_lookup, length_trajectory, lookup_app_r by lia.
    f_equal. lia.
  - intros k pre post Hpre Hpost i j nb Hin Hnd Hnb.
    apply lookup_cons_trajectory in Hpre as ->.
    assert (Hk : (k < Z.to_nat epochs)%nat).
    { apply lookup_lt_Some in Hpost. rewrite length_trajectory in Hpost.
      exact Hpost. }
    rewrite lookup_trajectory in Hpost by exact Hk.
    injection Hpost as <-. simpl iterate.
    destruct (shape_iterate class_n k a) as [H0 H1].
    assert (Hin' : inside (height (iterate class_n k a))
                          (width (iterate class_n k a)) (i, j))
      by (unfold height, width; rewrite H0, H1; exact Hin).
    fold (iterate class_n k a). rewrite (cell_epoch_step _ _ _ _ Hin').
    assert (Hcost : forall c, cost_at (iterate class_n k a) i j c
                              = spec_cost (iterate class_n k a) nb i j c).
    { intros c. apply cost_at_spec_cost; [exact Hnd|].
      unfold height, width. rewrite H0, H1. exact Hnb. }
    split.
    + apply (least_argmin_ext (cost_at (iterate class_n k a) i j) _ _ _ Hcost).
      apply new_label_least_argmin, Hclass.
    + exists (neighborhood (iterate class_n k a) i j). split.
      * rewrite get_neighbors_filter. unfold neighborhood, height, width.
        rewrite H0, H1. reflexivity.
      * intros c σ1 l Hl. rewrite <- Hcost.
        apply (cost_ok σ1 l _ Hl (wf_iterate _ _ _ Hwf)). reflexivity.
Qed.

Lemma cost_and_first_minimum_witness :
  let a := NdArray 2 3 [5; 5; 1; 2; 2; 1] in
  exists r σ' grids,
    denoise_predictions 0%nat 3 2 [a] = (Ok r, σ')
    /\ σ' = [a] ++ grids
    /\ length grids = Z.to_nat 2
    /\ σ' !! r = last grids
    /\ forall k pre post,
         (a :: grids) !! k = Some pre -> grids !! k = Some post ->
         forall i j nb,
           inside (height a) (width a) (i, j) ->
           NoDup nb ->
           (forall p, p ∈ nb <->
                      inside (height a) (width a) p /\ chebyshev p (i, j) = 1) ->
           least_argmin (spec_cost pre nb i j) 3 (cell post (i, j))
           /\ exists neighbors,
                get_neighbors i j (height a) (width a) = Ok neighbors
                /\ forall c σ1 l,
                     σ1 !! l = Some pre ->
                     cost c (cell pre (i, j)) l neighbors σ1
                     = (Ok (spec_cost pre nb i j c), σ1).
Proof.
  apply (cost_and_first_minimum [NdArray 2 3 [5; 5; 1; 2; 2; 1]] 0%nat
           (NdArray 2 3 [5; 5; 1; 2; 2; 1]) 3 2).
  - reflexivity.
  - reflexivity.
  - lia.
  - lia.
Defined.

(** C9: with at least one class and one epoch the call returns, and every
    entry of the grid it returns is a class index in [[0, class_n)],
    whatever labels the input holds. *)
Theorem denoised_labels_in_range (σ : heap) (src : loc) (a : ndarray)
    (class_n epochs : Z) :
  σ !! src = Some a -> wf_array a -> 1 <= class_n -> 1 <= epochs ->
  exists r σ' b,
    denoise_predictions src class_n epochs σ = (Ok r, σ')
    /\ σ' !! r = Some b
    /\ shape0 b = shape0 a /\ shape1 b = shape1 a /\ wf_array b
    /\ Forall (fun v => 0 <= v < class_n) (data b).
Proof.
  intros Hsrc Hwf Hclass He.
  destruct (Z.to_nat epochs) as [|m] eqn:Hm; [lia|].
  exists (length σ + Z.to_nat epochs - 1)%nat,
         (σ ++ trajectory class_n a (Z.to_nat epochs)),
         (epoch_step class_n (iterate class_n m a)).
  split; [apply (denoise_predictions_ok class_n src a σ Hsrc Hwf Hclass), He|].
  destruct (shape_iterate class_n m a) as [H0 H1].
  split; [|split; [exact H0|split; [exact H1|split; [apply wf_epoch_step|]]]].
  - rewrite Hm, lookup_app_r by lia.
    replace (length σ + S m - 1 - length σ)%nat with m by lia.
    apply lookup_trajectory. lia.
  - apply Forall_forall. intros v Hv. simpl in Hv.
    apply list_elem_of_fmap in Hv as (k & -> & _).
    apply (new_label_least_argmin class_n), Hclass.
Qed.

Lemma denoised_labels_in_range_witness :
  exists r σ' b,
    denoise_predictions 0%nat 3 2 [NdArray 2 3 [5; 7; -1; 2; 2; 9]] = (Ok r, σ')
    /\ σ' !! r = Some b
    /\ shape0 b = 2%nat /\ shape1 b = 3%nat /\ wf_array b
    /\ Forall (fun v => 0 <= v < 3) (data b).
Proof.
  apply (denoised_labels_in_range [NdArray 2 3 [5; 7; -1; 2; 2; 9]] 0%nat
           (NdArray 2 3 [5; 7; -1; 2; 2; 9]) 3 2).
  - reflexivity.
  - reflexivity.
  - lia.
  - lia.
Defined.

(** *** Uniform grids *)

Lemma cell_uniform h w c p :
  inside (Z.of_nat h) (Z.of_nat w) p -> cell (uniform h w c) p = c.
Proof.
  intros Hp. unfold cell. simpl.
  rewrite lookup_replicate_2; [reflexivity|].
  apply (offset_inside_lt (uniform h w c)), Hp.
Qed.

Lemma sumZ_indicator_const (L : ndarray) (c c' : Z) (nb : list (Z * Z)) :
  Forall (fun p => cell L p = c) nb ->
  sumZ (fun n => indicator (c' = cell L n)) nb
  = if decide (c' = c) then Z.of_nat (length nb) else 0.
Proof.
  induction 1 as [|p nb Hp _ IH]; simpl.
  - case_decide; reflexivity.
  - rewrite IH, Hp. unfold indicator. case_decide; lia.
Qed.

Lemma cost_at_uniform h w c i j c' :
  inside (Z.of_nat h) (Z.of_nat w) (i, j) ->
  cost_at (uniform h w c) i j c'
  = if decide (c' = c)
    then - (1 + 10 * Z.of_nat (length (neighborhood (uniform h w c) i j)))
    else 0.
Proof.
  intros Hin. unfold cost_at.
  rewrite kronecker_delta_indicator, np_sum_kronecker.
  rewrite (sumZ_indicator_const _ c).
  - rewrite (cell_uniform _ _ _ _ Hin). unfold indicator.
    case_decide; lia.
  - eapply Forall_impl; [apply neighborhood_inside|].
    intros p Hp. apply cell_uniform, Hp.
Qed.

Lemma new_label_uniform class_n h w c i j :
  0 <= c < class_n ->
  inside (Z.of_nat h) (Z.of_nat w) (i, j) ->
  new_label class_n (uniform h w c) i j = c.
Proof.
  intros Hc Hin. apply new_label_unique. split; [exact Hc|].
  split; intros c' Hc'; rewrite !(cost_at_uniform _ _ _ _ _ _ Hin);
    rewrite decide_True by reflexivity;
    case_decide; lia.
Qed.

Lemma epoch_step_uniform class_n h w c :
  0 <= c < class_n -> epoch_step class_n (uniform h w c) = uniform h w c.
Proof.
  intros Hc. unfold epoch_step, uniform. simpl. f_equal.
  apply list_eq. intros k.
  destruct (decide (k < h * w)%nat) as [Hk|Hk].
  - rewrite list_lookup_fmap, lookup_seq_lt, lookup_replicate_2 by exact Hk.
    simpl. f_equal. apply new_label_uniform; [exact Hc|].
    assert (Hw : (0 < w)%nat) by nia.
    pose proof (Nat.mod_upper_bound k w) as Hmod.
    assert (Hdiv : (k / w < h)%nat)
      by (apply Nat.Div0.div_lt_upper_bound; lia).
    unfold inside. simpl. lia.
  - rewrite !lookup_ge_None_2; [reflexivity| |];
      rewrite ?length_fmap, ?length_seq, ?length_replicate; lia.
Qed.

Lemma iterate_uniform class_n k h w c :
  0 <= c < class_n -> iterate class_n k (uniform h w c) = uniform h w c.
Proof.
  intros Hc. induction k as [|k IH]; simpl; [reflexivity|].
  fold (iterate class_n k (uniform h w c)). rewrite IH.
  apply epoch_step_uniform, Hc.
Qed.

(** With at least one epoch a uniform grid of a class below [class_n] is
    returned as it was given, in a new array. *)
Lemma uniform_fixed_point (σ : heap) (src : loc) (h w : nat)
    (c class_n epochs : Z) :
  σ !! src = Some (uniform h w c) -> 0 <= c < class_n -> 1 <= epochs ->
  exists r σ',
    denoise_predictions src class_n epochs σ = (Ok r, σ')
    /\ σ' !! r = Some (uniform h w c).
Proof.
  intros Hsrc Hc He.
  assert (Hwf : wf_array (uniform h w c))
    by (unfold wf_array; simpl; apply length_replicate).
  assert (Hclass : 1 <= class_n) by lia.
  destruct (denoise_returns_iterate class_n src _ σ Hsrc Hwf Hclass epochs He)
    as (r & σ' & Hrun & _ & _ & Hr).
  exists r, σ'. split; [exact Hrun|].
  rewrite Hr, iterate_uniform by exact Hc. reflexivity.
Qed.

Lemma uniform_no_epoch_raises (σ : heap) (src : loc) (h w : nat)
    (c class_n epochs : Z) :
  σ !! src = Some (uniform h w c) -> 0 <= c < class_n -> epochs <= 0 ->
  denoise_predictions src class_n epochs σ = (Raise UnboundLocalError, σ).
Proof.
  intros Hsrc Hc He.
  apply (unbound_without_iteration σ src (uniform h w c)); [assumption|lia|lia].
Qed.

(** C6: a uniform grid is claimed to come back unchanged for any number
    of epochs.  On the code a uniform grid of a class below [class_n] is a
    fixed point for every positive number of epochs; with no epoch the
    call returns nothing and raises [UnboundLocalError]. *)
Theorem uniform_grid_epochs (σ : heap) (src : loc) (h w : nat)
    (c class_n epochs : Z) :
  σ !! src = Some (uniform h w c) -> 0 <= c < class_n ->
  (1 <= epochs ->
   exists r σ',
     denoise_predictions src class_n epochs σ = (Ok r, σ')
     /\ σ' !! r = Some (uniform h w c))
  /\ (epochs <= 0 ->
      denoise_predictions src class_n epochs σ = (Raise UnboundLocalError, σ)).
Proof.
  intros Hsrc Hc. split; intros He.
  - apply uniform_fixed_point; assumption.
  - apply (uniform_no_epoch_raises σ src h w c); assumption.
Qed.

(** On the 2 x 2 grid of class 1 with two classes and no epoch. *)
Lemma uniform_zero_epochs_unbound :
  denoise_predictions 0%nat 2 0 [uniform 2 2 1]
  = (Raise UnboundLocalError, [uniform 2 2 1]).
Proof.
  apply (uniform_grid_epochs [uniform 2 2 1] 0%nat 2 2 1 2 0).
  - reflexivity.
  - lia.
  - lia.
Defined.

(** *** An isolated outlier *)

Lemma outlier_cost_zero_least (i j c : Z) :
  inside 3 3 (i, j) -> c <> 0 ->
  cost_at outlier33 i j 0 < cost_at outlier33 i j c.
Proof.
  unfold inside. simpl. intros [Hi Hj] Hc.
  assert (Hi' : i = 0 \/ i = 1 \/ i = 2) by lia.
  assert (Hj' : j = 0 \/ j = 1 \/ j = 2) by lia.
  destruct Hi' as [-> | [-> | ->]]; destruct Hj' as [-> | [-> | ->]];
    unfold cost_at;
    match goal with
    | |- context [cell outlier33 <$> neighborhood outlier33 ?x ?y] =>
        let vs := fresh "vs" in
        set (vs := cell outlier33 <$> neighborhood outlier33 x y);
        vm_compute in vs; subst vs
    end;
    match goal with
    | |- context [cell outlier33 ?p] =>
        let v := fresh "v" in
        set (v := cell outlier33 p); vm_compute in v; subst v
    end;
    unfold kronecker_delta_vec, np_sum, kronecker_delta;
    cbn [fmap list_fmap foldr];
    repeat case_decide; lia.
Qed.

Lemma new_label_outlier (class_n i j : Z) :
  2 <= class_n -> inside 3 3 (i, j) -> new_label class_n outlier33 i j = 0.
Proof.
  intros Hn Hin. apply new_label_unique. split; [lia|]. split.
  - intros c' Hc'. destruct (decide (c' = 0)) as [->|Hne]; [lia|].
    pose proof (outlier_cost_zero_least i j c' Hin Hne). lia.
  - intros c' Hc'. lia.
Qed.

Lemma epoch_step_outlier (class_n : Z) :
  2 <= class_n -> epoch_step class_n outlier33 = zeros33.
Proof.
  intros Hn. unfold epoch_step, zeros33. simpl shape0. simpl shape1. f_equal.
  change [0; 0; 0; 0; 0; 0; 0; 0; 0] with ((fun _ : nat => 0) <$> seq 0 (3 * 3)).
  apply list_fmap_ext. intros k x Hk. apply lookup_seq in Hk as [-> Hk].
  apply new_label_outlier; [exact Hn|].
  assert (Hdiv : (k / 3 < 3)%nat)
    by (apply Nat.Div0.div_lt_upper_bound; exact Hk).
  pose proof (Nat.mod_upper_bound k 3).
  change (0 + k)%nat with k. unfold inside. cbn [fst snd]. lia.
Qed.

(** C5: one epoch on the 3 x 3 grid of class 0 with a 1 in the centre, with
    at least two classes, returns the 3 x 3 grid of class 0.  At the centre
    [get_neighbors] returns eight cells, the source value read is 1, and
    [cost] returns [-(1 + 0)] for keeping class 1 and [-(0 + 8 * 10)] for
    switching to class 0. *)
Theorem outlier_corrected (σ : heap) (src : loc) (class_n : Z) :
  σ !! src = Some outlier33 -> 2 <= class_n ->
  exists r σ' neighbors,
    denoise_predictions src class_n 1 σ = (Ok r, σ')
    /\ σ' !! r = Some zeros33
    /\ get_neighbors 1 1 3 3 = Ok neighbors
    /\ length neighbors = 8%nat
    /\ getitem src (1, 1) σ = (Ok 1, σ)
    /\ cost 1 1 src neighbors σ = (Ok (- (1 + 0)), σ)
    /\ cost 0 1 src neighbors σ = (Ok (- (0 + 8 * 10)), σ).
Proof.
  intros Hsrc Hn.
  assert (Hwf : wf_array outlier33) by reflexivity.
  assert (Hin : inside (height outlier33) (width outlier33) (1, 1))
    by (unfold inside, height, width; simpl; lia).
  destruct (denoise_returns_iterate class_n src _ σ Hsrc Hwf
              ltac:(lia) 1 ltac:(lia)) as (r & σ' & Hrun & _ & _ & Hr).
  exists r, σ', (neighborhood outlier33 1 1).
  split; [exact Hrun|]. split.
  { rewrite Hr. simpl iterate. f_equal. apply epoch_step_outlier, Hn. }
  split; [apply (get_neighbors_filter 1 1 3 3)|].
  split; [reflexivity|].
  split; [apply (getitem_ok σ src outlier33 Hsrc Hwf (1, 1) Hin)|].
  split.
  - apply (cost_ok σ src outlier33 Hsrc Hwf 1 1 1 1). reflexivity.
  - apply (cost_ok σ src outlier33 Hsrc Hwf 1 1 0 1). reflexivity.
Qed.

Lemma outlier_corrected_witness :
  exists r σ' neighbors,
    denoise_predictions 0%nat 2 1 [outlier33] = (Ok r, σ')
    /\ σ' !! r = Some zeros33
    /\ get_neighbors 1 1 3 3 = Ok neighbors
    /\ length neighbors = 8%nat
    /\ getitem 0%nat (1, 1) [outlier33] = (Ok 1, [outlier33])
    /\ cost 1 1 0%nat neighbors [outlier33] = (Ok (- (1 + 0)), [outlier33])
    /\ cost 0 1 0%nat neighbors [outlier33]
       = (Ok (- (0 + 8 * 10)), [outlier33]).
Proof.
  apply (outlier_corrected [outlier33] 0%nat 2).
  - reflexivity.
  - lia.
Defined.

(** *** What a call leaves alone *)

Section Keeps.
Variable σ : heap.

Lemma keeps_ret {A} (Q : A -> Prop) (a : A) : Q a -> keeps σ Q (ret a).
Proof.
  intros HQ σ1 r σ2 Hpre [= <- <-]. split; [exact Hpre|].
  intros x [= <-]. exact HQ.
Qed.

Lemma keeps_raise {A} (Q : A -> Prop) (e : exn) : keeps σ Q (raise e).
Proof.
  intros σ1 r σ2 Hpre [= <- <-]. split; [exact Hpre|]. intros x [=].
Qed.

Lemma keeps_lift {A} (r : result A) : keeps σ (fun _ => True) (lift r).
Proof. intros σ1 r' σ2 Hpre [= <- <-]. split; [exact Hpre|]. trivial. Qed.

Lemma keeps_bind {A B} (Q : A -> Prop) (R : B -> Prop) (c : M A)
    (k : A -> M B) :
  keeps σ Q c -> (forall a, Q a -> keeps σ R (k a)) -> keeps σ R (bind c k).
Proof.
  intros Hc Hk σ1 r σ2 Hpre Hrun. unfold bind in Hrun.
  destruct (c σ1) as [[a|e] σ'] eqn:Hcσ.
  - destruct (Hc _ _ _ Hpre Hcσ) as [Hpre' HQ].
    apply (Hk a (HQ a eq_refl) _ _ _ Hpre' Hrun).
  - destruct (Hc _ _ _ Hpre Hcσ) as [Hpre' _].
    injection Hrun as <- <-. split; [exact Hpre'|]. intros x [=].
Qed.

Lemma keeps_weaken {A} (Q Q' : A -> Prop) (c : M A) :
  keeps σ Q c -> (forall a, Q a -> Q' a) -> keeps σ Q' c.
Proof.
  intros Hc HQ σ1 r σ2 Hpre Hrun.
  destruct (Hc _ _ _ Hpre Hrun) as [Hpre' Hx]. split; [exact Hpre'|].
  intros x Hr. apply HQ, Hx, Hr.
Qed.

Lemma keeps_for_each {A St} (P : St -> Prop) (xs : list A)
    (body : A -> St -> M St) (s : St) :
  (forall x s1, P s1 -> keeps σ P (body x s1)) ->
  P s -> keeps σ P (for_each xs body s).
Proof.
  intros Hbody. revert s. induction xs as [|x xs IH]; intros s Hs; simpl.
  - apply keeps_ret, Hs.
  - eapply keeps_bind; [apply Hbody, Hs|]. intros s' Hs'. apply IH, Hs'.
Qed.

Lemma keeps_deref (l : loc) : keeps σ (fun _ => True) (deref l).
Proof.
  intros σ1 r σ2 Hpre Hrun. unfold deref in Hrun.
  destruct (σ1 !! l); injection Hrun as <- <-; split; auto.
Qed.

Lemma keeps_shape (l : loc) : keeps σ (fun _ => True) (shape l).
Proof.
  unfold shape. eapply keeps_bind; [apply keeps_deref|].
  intros a _. apply keeps_ret. trivial.
Qed.

Lemma keeps_getitem (l : loc) (p : Z * Z) :
  keeps σ (fun _ => True) (getitem l p).
Proof.
  unfold getitem. eapply keeps_bind; [apply keeps_deref|]. intros a _.
  destruct (offset a p) as [k|]; [|apply keeps_raise].
  destruct (data a !! k); [apply keeps_ret; trivial|apply keeps_raise].
Qed.

Lemma keeps_read_all (l : loc) (ps : list (Z * Z)) :
  keeps σ (fun _ => True) (read_all l ps).
Proof.
  induction ps as [|p ps IH]; simpl; [apply keeps_ret; trivial|].
  eapply keeps_bind; [apply keeps_getitem|]. intros v _.
  eapply keeps_bind; [apply IH|]. intros vs _. apply keeps_ret. trivial.
Qed.

Lemma keeps_cost (c v : Z) (l : loc) (ps : list (Z * Z)) :
  keeps σ (fun _ => True) (cost c v l ps).
Proof.
  unfold cost. eapply keeps_bind; [apply keeps_read_all|].
  intros vs _. apply keeps_ret. trivial.
Qed.

(** A fresh array lies beyond [σ]. *)
Lemma keeps_alloc (a : ndarray) :
  keeps σ (fun l => (length σ <= l)%nat) (alloc a).
Proof.
  intros σ1 r σ2 Hpre [= <- <-]. split.
  - apply prefix_app_r, Hpre.
  - intros x [= <-]. apply prefix_length, Hpre.
Qed.

(** A write beyond [σ] leaves [σ] alone. *)
Lemma keeps_store (l : loc) (a : ndarray) :
  (length σ <= l)%nat -> keeps σ (fun _ => True) (store l a).
Proof.
  intros Hl σ1 r σ2 [k ->] Hrun. unfold store in Hrun.
  case_decide; injection Hrun as <- <-.
  - split; [|trivial]. rewrite insert_app_r_alt by exact Hl.
    apply prefix_app_r. reflexivity.
  - split; [|trivial]. apply prefix_app_r. reflexivity.
Qed.

Lemma keeps_setitem (l : loc) (p : Z * Z) (v : Z) :
  (length σ <= l)%nat -> keeps σ (fun _ => True) (setitem l p v).
Proof.
  intros Hl. unfold setitem. eapply keeps_bind; [apply keeps_deref|].
  intros a _. destruct (offset a p); [apply keeps_store, Hl|apply keeps_raise].
Qed.

Lemma keeps_zeros_like (l : loc) :
  keeps σ (fun d => (length σ <= d)%nat) (np_zeros_like l).
Proof.
  unfold np_zeros_like. eapply keeps_bind; [apply keeps_deref|].
  intros a _. apply keeps_alloc.
Qed.

Lemma keeps_pixel (src dst : loc) (class_n h w i j : Z) (costs : list Z) :
  (length σ <= dst)%nat ->
  keeps σ (fun _ => True) (pixel src dst class_n h w i j costs).
Proof.
  intros Hdst. unfold pixel.
  eapply keeps_bind; [apply keeps_lift|]. intros nb _.
  eapply keeps_bind.
  { apply (keeps_for_each (fun _ => True)); [|trivial].
    intros c cs _. eapply keeps_bind; [apply keeps_getitem|]. intros v _.
    eapply keeps_bind; [apply keeps_cost|]. intros x _. apply keeps_lift. }
  intros cs _. eapply keeps_bind; [apply keeps_lift|]. intros best _.
  eapply keeps_bind; [apply keeps_setitem, Hdst|]. intros _ _.
  apply keeps_ret. trivial.
Qed.

Lemma keeps_epoch (class_n h w e : Z) (s : locals) :
  keeps σ (dst_fresh σ) (epoch class_n h w e s).
Proof.
  destruct s as [[src old] costs]. unfold epoch.
  eapply keeps_bind; [apply keeps_zeros_like|]. intros dst Hdst.
  eapply keeps_bind.
  { apply (keeps_for_each (fun _ => True)); [|trivial]. intros i cs _.
    apply (keeps_for_each (fun _ => True)); [|trivial]. intros j cs' _.
    apply keeps_pixel, Hdst. }
  intros cs _. apply keeps_ret. intros d [= <-]. exact Hdst.
Qed.

Lemma keeps_denoise (src : loc) (class_n epochs : Z) :
  keeps σ (fun r => (length σ <= r)%nat)
    (denoise_predictions src class_n epochs).
Proof.
  unfold denoise_predictions, epochs_loop.
  eapply keeps_bind.
  { eapply keeps_bind; [apply keeps_shape|]. intros [h w] _.
    eapply keeps_bind; [apply keeps_lift|]. intros costs _.
    apply (keeps_for_each (dst_fresh σ)); [intros; apply keeps_epoch|].
    intros d [=]. }
  intros [[s [d|]] cs] Hd; [|apply keeps_raise].
  apply keeps_ret, Hd. reflexivity.
Qed.
End Keeps.

(** C10: the call never changes an array of the store it is given, whether
    it returns or raises: the input grid holds its values afterwards, and a
    grid that is returned is a new array, distinct from the input.  With at
    least one class and one epoch the call does return. *)
Theorem input_never_mutated (σ : heap) (src : loc) (a : ndarray)
    (class_n epochs : Z) :
  σ !! src = Some a ->
  (forall r σ',
     denoise_predictions src class_n epochs σ = (r, σ') ->
     σ `prefix_of` σ'
     /\ σ' !! src = Some a
     /\ forall d, r = Ok d -> d <> src /\ σ !! d = None)
  /\ (wf_array a -> 1 <= class_n -> 1 <= epochs ->
      exists d σ',
        denoise_predictions src class_n epochs σ = (Ok d, σ')
        /\ d <> src /\ σ' !! src = Some a /\ σ `prefix_of` σ').
Proof.
  intros Hsrc.
  assert (Hany : forall r σ',
     denoise_predictions src class_n epochs σ = (r, σ') ->
     σ `prefix_of` σ'
     /\ σ' !! src = Some a
     /\ forall d, r = Ok d -> d <> src /\ σ !! d = None).
  { intros r σ' Hrun.
    destruct (keeps_denoise σ src class_n epochs σ r σ' (reflexivity σ) Hrun)
      as [Hpre Hfresh].
    split; [exact Hpre|]. split.
    - eapply prefix_lookup_Some; [exact Hsrc|exact Hpre].
    - intros d Hd. specialize (Hfresh d Hd).
      apply lookup_lt_Some in Hsrc. split; [lia|].
      apply lookup_ge_None_2. exact Hfresh. }
  split; [exact Hany|]. intros Hwf Hclass He.
  destruct (denoise_returns_iterate class_n src a σ Hsrc Hwf Hclass epochs He)
    as (d & σ' & Hrun & _).
  destruct (Hany _ _ Hrun) as (Hpre & Hsrc' & Hd).
  exists d, σ'. split; [exact Hrun|]. split; [apply (Hd d eq_refl)|].
  split; [exact Hsrc'|exact Hpre].
Qed.

Lemma input_never_mutated_witness :
  let a := NdArray 2 3 [5; 5; 1; 2; 2; 1] in
  exists d σ',
    denoise_predictions 0%nat 3 2 [a] = (Ok d, σ')
    /\ d <> 0%nat /\ σ' !! 0%nat = Some a /\ [a] `prefix_of` σ'.
Proof.
  refine (proj2 (input_never_mutated [NdArray 2 3 [5; 5; 1; 2; 2; 1]] 0%nat
                  (NdArray 2 3 [5; 5; 1; 2; 2; 1]) 3 2 _) _ _ _).
  - reflexivity.
  - reflexivity.
  - lia.
  - lia.
Defined.

(** ** The batch loop *)

Lemma for_result_inv {A St} (I : nat -> St -> Prop) (xs : list A)
    (body : A -> St -> result St) (s : St) :
  I O s ->
  (forall k x s1, xs !! k = Some x -> I k s1 ->
     exists s2, body x s1 = Ok s2 /\ I (S k) s2) ->
  exists s', for_result xs body s = Ok s' /\ I (length xs) s'.
Proof.
  revert I s. induction xs as [|x xs IH]; intros I s H0 Hstep; simpl.
  - exists s. split; [reflexivity|exact H0].
  - destruct (Hstep O x s eq_refl H0) as (s1 & Hb & H1). rewrite Hb. simpl.
    apply (IH (fun k => I (S k))); [exact H1|].
    intros k y s2 Hy. apply (Hstep (S k)). exact Hy.
Qed.

Lemma batches_S {A} (l : list A) m q :
  batches l m (S q) = batches l m q ++ [nth_batch l m q].
Proof. unfold batches. rewrite seq_S, fmap_app. reflexivity. Qed.

Lemma concat_batches {A} (l : list A) m q :
  concat (batches l m q) = take (q * m) l.
Proof.
  induction q as [|q IH]; [reflexivity|].
  rewrite batches_S, concat_app, IH. simpl. rewrite app_nil_r.
  unfold nth_batch. rewrite take_take_drop. f_equal. lia.
Qed.

Lemma length_nth_batch {A} (l : list A) m k :
  length (nth_batch l m k) = (m `min` (length l - k * m))%nat.
Proof. unfold nth_batch. rewrite length_take, length_drop. reflexivity. Qed.

Lemma lookup_batches {A} (l : list A) m q k b :
  batches l m q !! k = Some b <-> (k < q)%nat /\ b = nth_batch l m k.
Proof.
  unfold batches. rewrite list_lookup_fmap. split.
  - intros H. destruct (seq 0 q !! k) as [i|] eqn:E; [|discriminate].
    apply lookup_seq in E as [-> Hk]. simpl in H. split; congruence.
  - intros [Hk ->]. rewrite lookup_seq_lt by exact Hk. reflexivity.
Qed.

Lemma clip_inside (n : nat) (i : nat) :
  (i <= n)%nat -> clip n (Z.of_nat i) = i.
Proof. intros Hi. unfold clip. rewrite decide_False by lia. lia. Qed.

Lemma clip_beyond (n : nat) (i : Z) : Z.of_nat n <= i -> clip n i = n.
Proof. intros Hi. unfold clip. rewrite decide_False by lia. lia. Qed.

(** The slice that the loop takes at [sub_i = k * m] is the [k]-th batch. *)
Lemma slice_nth_batch {A} (l : list A) (m k : nat) :
  slice l (Z.of_nat (k * m)) (Z.of_nat (k * m) + Z.of_nat m) = nth_batch l m k.
Proof.
  unfold slice, nth_batch.
  destruct (decide (k * m + m <= length l)%nat) as [Hle|Hgt].
  - replace (Z.of_nat (k * m) + Z.of_nat m) with (Z.of_nat (k * m + m)) by lia.
    rewrite !clip_inside by lia. f_equal. lia.
  - rewrite (clip_beyond _ (Z.of_nat (k * m) + Z.of_nat m)) by lia.
    destruct (decide (k * m <= length l)%nat) as [Hk|Hk].
    + rewrite clip_inside by lia.
      rewrite !take_ge; [reflexivity| |]; rewrite length_drop; lia.
    + rewrite clip_beyond by lia. rewrite !drop_ge by lia.
      rewrite !take_nil. reflexivity.
Qed.

Lemma length_concat_fmap {A} (f : list A -> list Z) (bs : list (list A)) :
  (forall b, length (f b) = length b) ->
  length (concat (f <$> bs)) = length (concat bs).
Proof.
  intros Hf. induction bs as [|b bs IH]; csimpl; [reflexivity|].
  rewrite !length_app, Hf, IH. reflexivity.
Qed.

(** The number of batches: [n] over [m], rounded up. *)
Lemma batch_count_bounds (n m : Z) :
  0 <= n -> 1 <= m ->
  let q := (n + m - 1) / m in
  0 <= q /\ (q - 1) * m < n /\ n <= q * m.
Proof.
  intros Hn Hm q.
  pose proof (Z.mul_div_le (n + m - 1) m ltac:(lia)) as H1.
  pose proof (Z.mul_succ_div_gt (n + m - 1) m ltac:(lia)) as H2.
  fold q in H1, H2.
  assert (0 <= q) by (apply Z.div_pos; lia). nia.
Qed.

Section Batching.
Variable tile : Type.
Variable classify : list tile -> list Z.
(** The classifier returns one label per tile of its batch. *)
Hypothesis classify_length : forall b, length (classify b) = length b.

Variables (subs : list tile) (m : nat).
Hypothesis Hm : (1 <= m)%nat.

Lemma length_labels_upto k :
  length (concat (classify <$> batches subs m k))
  = ((k * m) `min` length subs)%nat.
Proof.
  rewrite (length_concat_fmap _ _ classify_length), concat_batches.
  apply length_take.
Qed.

Lemma batch_start_lt k :
  (k < batch_count (length subs) m)%nat -> (k * m < length subs)%nat.
Proof.
  unfold batch_count. intros Hk.
  destruct (batch_count_bounds (Z.of_nat (length subs)) (Z.of_nat m))
    as (H0 & H1 & _); [lia|lia|].
  replace (Z.of_nat (length subs) - 0) with (Z.of_nat (length subs)) in Hk
    by lia.
  nia.
Qed.

Lemma batches_reach_end :
  (length subs <= batch_count (length subs) m * m)%nat.
Proof.
  unfold batch_count.
  destruct (batch_count_bounds (Z.of_nat (length subs)) (Z.of_nat m))
    as (H0 & _ & H2); [lia|lia|].
  replace (Z.of_nat (length subs) - 0) with (Z.of_nat (length subs)) by lia.
  nia.
Qed.

Lemma classify_batch_ok (k : nat) (ov : list Z) :
  (k < batch_count (length subs) m)%nat -> length ov = length subs ->
  classify_batch tile classify subs (Z.of_nat m) (0 + Z.of_nat k * Z.of_nat m)
    (concat (classify <$> batches subs m k)
       ++ drop ((k * m) `min` length subs) ov,
     Z.of_nat ((k * m) `min` length subs), batches subs m k)
  = Ok (concat (classify <$> batches subs m (S k))
          ++ drop ((S k * m) `min` length subs) ov,
        Z.of_nat ((S k * m) `min` length subs), batches subs m (S k)).
Proof.
  intros Hk Hov. pose proof (batch_start_lt k Hk) as Hlt.
  unfold classify_batch.
  replace (0 + Z.of_nat k * Z.of_nat m) with (Z.of_nat (k * m)) by lia.
  rewrite slice_nth_batch.
  set (b := nth_batch subs m k).
  set (P := concat (classify <$> batches subs m k)).
  assert (HP : length P = (k * m)%nat)
    by (unfold P; rewrite length_labels_upto; lia).
  assert (Hb : length b = (m `min` (length subs - k * m))%nat)
    by (unfold b; apply length_nth_batch).
  replace ((k * m) `min` length subs)%nat with (k * m)%nat by lia.
  replace ((S k * m) `min` length subs)%nat with (k * m + length b)%nat
    by lia.
  unfold slice_assign.
  assert (Hlen : length (P ++ drop (k * m) ov) = length subs)
    by (rewrite length_app, length_drop; lia).
  rewrite Hlen.
  replace (Z.of_nat (k * m) + Z.of_nat (length b))
    with (Z.of_nat (k * m + length b)) by lia.
  rewrite !clip_inside by lia.
  replace (k * m + length b - k * m)%nat with (length b) by lia.
  rewrite decide_True by apply classify_length. simpl rbind.
  rewrite take_app_length' by (symmetry; exact HP).
  rewrite drop_app_ge by lia. rewrite drop_drop.
  replace (k * m + (k * m + length b - length P))%nat
    with (k * m + length b)%nat by lia.
  rewrite batches_S, fmap_app, concat_app. simpl. rewrite app_nil_r.
  fold b. fold P. rewrite <- app_assoc. reflexivity.
Qed.

Lemma classify_batches_ok (ov : list Z) :
  length ov = length subs ->
  classify_batches tile classify subs (Z.of_nat m) ov
  = Ok (concat (classify <$> batches subs m (batch_count (length subs) m)),
        Z.of_nat (length subs),
        batches subs m (batch_count (length subs) m)).
Proof.
  intros Hov. unfold classify_batches, xrange.
  rewrite decide_False by lia. rewrite decide_True by lia. simpl rbind.
  fold (batch_count (length subs) m).
  set (q := batch_count (length subs) m).
  set (starts := (fun k : nat => 0 + Z.of_nat k * Z.of_nat m) <$> seq 0 q).
  destruct (for_result_inv
    (fun k (s : batch_state tile) =>
       s = (concat (classify <$> batches subs m k)
              ++ drop ((k * m) `min` length subs) ov,
            Z.of_nat ((k * m) `min` length subs), batches subs m k))
    starts (classify_batch tile classify subs (Z.of_nat m)) (ov, 0, []))
    as (s' & Hrun & Hs').
  - reflexivity.
  - intros k x s1 Hx ->. unfold starts in Hx.
    rewrite list_lookup_fmap in Hx.
    destruct (seq 0 q !! k) as [i|] eqn:E; [|discriminate].
    apply lookup_seq in E as [-> Hk]. simpl in Hx. injection Hx as <-.
    eexists. split; [apply classify_batch_ok; assumption|reflexivity].
  - rewrite Hrun, Hs'. unfold starts. rewrite length_fmap, length_seq.
    pose proof batches_reach_end as Hend. fold q in Hend.
    replace ((q * m) `min` length subs)%nat with (length subs) by lia.
    rewrite drop_ge by lia. rewrite app_nil_r. reflexivity.
Qed.
End Batching.

Lemma batches_split {A} (l : list A) (m q k : nat) :
  (k < q)%nat ->
  batches l m q
  = batches l m k ++ nth_batch l m k :: (nth_batch l m <$> seq (S k) (q - S k)).
Proof.
  intros Hk. unfold batches.
  replace q with (k + S (q - S k))%nat at 1 by lia.
  rewrite seq_app, fmap_app. reflexivity.
Qed.

Lemma last_batch_size (n mb q : Z) :
  0 <= n -> 1 <= mb -> (q - 1) * mb < n -> n <= q * mb ->
  Z.min mb (n - (q - 1) * mb) = if decide (n mod mb = 0) then mb else n mod mb.
Proof.
  intros Hn Hmb Hlo Hhi.
  pose proof (Z.div_mod n mb ltac:(lia)) as Hdm.
  pose proof (Z.mod_pos_bound n mb ltac:(lia)) as Hr.
  case_decide as Hz.
  - assert (n / mb = q) by nia. nia.
  - assert (n / mb = q - 1) by nia. nia.
Qed.

(** The loop returns, for every tile one label, the concatenation of what
    the classifier answered on the batches. *)
Lemma batches_count_and_labels (tile : Type) (classify : list tile -> list Z)
    (subs : list tile) (mb_n : Z) (ov : list Z) :
  (forall b, length (classify b) = length b) ->
  1 <= mb_n ->
  length ov = length subs ->
  exists labels calls,
    classify_batches tile classify subs mb_n ov
    = Ok (labels, Z.of_nat (length subs), calls)
    /\ labels = concat (classify <$> calls)
    /\ length labels = length subs.
Proof.
  intros Hcl Hmb Hov. rewrite <- (Z2Nat.id mb_n) by lia.
  assert (Hm : (1 <= Z.to_nat mb_n)%nat) by lia.
  eexists _, _.
  split; [apply (classify_batches_ok tile classify Hcl subs _ Hm), Hov|].
  split; [reflexivity|].
  rewrite (length_labels_upto tile classify Hcl subs).
  pose proof (batches_reach_end tile subs _ Hm). lia.
Qed.

(** C7: the batch loop consumes the flat tile sequence of a block in
    consecutive slices.  Every batch passed to the classifier is a slice of
    [mb_n] consecutive tiles, except that the last one holds the [n mod
    mb_n] remaining tiles when [mb_n] does not divide [n]; no batch is
    empty or padded, the batches concatenated are the tile sequence, and
    the label vector is the concatenation of the classifier's outputs,
    each written where its batch starts: one label per tile. *)
Theorem batches_cover_tiles (tile : Type) (classify : list tile -> list Z)
    (subs : list tile) (mb_n : Z) (overlay_predictions : list Z) :
  (forall b, length (classify b) = length b) ->
  1 <= mb_n ->
  length overlay_predictions = length subs ->
  let n := Z.of_nat (length subs) in
  exists labels calls,
    classify_batches tile classify subs mb_n overlay_predictions
    = Ok (labels, n, calls)
    /\ concat calls = subs
    /\ labels = concat (classify <$> calls)
    /\ length labels = length subs
    /\ Z.of_nat (length calls) = (n + mb_n - 1) / mb_n
    /\ forall k b, calls !! k = Some b ->
         b = take (Z.to_nat mb_n) (drop (k * Z.to_nat mb_n) subs)
         /\ take (length b) (drop (k * Z.to_nat mb_n) labels) = classify b
         /\ (0 < length b)%nat
         /\ (S k < length calls -> Z.of_nat (length b) = mb_n)%nat
         /\ (S k = length calls -> n mod mb_n <> 0 ->
             Z.of_nat (length b) = n mod mb_n)
         /\ (S k = length calls -> n mod mb_n = 0 ->
             Z.of_nat (length b) = mb_n).
Proof.
  intros Hcl Hmb Hov n.
  set (m := Z.to_nat mb_n).
  assert (Hm : (1 <= m)%nat) by (unfold m; lia).
  assert (Hmb_n : mb_n = Z.of_nat m) by (unfold m; lia).
  set (q := batch_count (length subs) m).
  assert (Hq : Z.of_nat q = (n + mb_n - 1) / mb_n).
  { unfold q, batch_count. fold n. rewrite <- Hmb_n, Z.sub_0_r.
    apply Z2Nat.id, Z.div_pos; lia. }
  pose proof (batches_reach_end tile subs m Hm) as Hend. fold q in Hend.
  destruct (batch_count_bounds n mb_n ltac:(lia) Hmb) as (Hq0 & Hqlo & Hqhi).
  rewrite <- Hq in Hqlo, Hqhi.
  assert (Hcalls : length (batches subs m q) = q)
    by (unfold batches; rewrite length_fmap, length_seq; reflexivity).
  exists (concat (classify <$> batches subs m q)), (batches subs m q).
  split.
  { rewrite Hmb_n. apply (classify_batches_ok tile classify Hcl subs m Hm), Hov. }
  split; [rewrite concat_batches; apply take_ge; exact Hend|].
  split; [reflexivity|].
  split; [rewrite (length_labels_upto tile classify Hcl subs m); lia|].
  split; [rewrite Hcalls; exact Hq|].
  intros k b Hb. apply lookup_batches in Hb as [Hk ->]. rewrite Hcalls.
  pose proof (batch_start_lt tile subs m Hm k Hk) as Hlt.
  split; [reflexivity|].
  rewrite length_nth_batch.
  split; [|split; [lia|split; [|split]]].
  - rewrite (batches_split subs m q k Hk), fmap_app, concat_app.
    rewrite drop_app_length'
      by (rewrite (length_labels_upto tile classify Hcl subs m); lia).
    csimpl. rewrite <- length_nth_batch.
    apply take_app_length'. symmetry. apply Hcl.
  - intros Hnext.
    pose proof (batch_start_lt tile subs m Hm (S k) Hnext) as Hlt'. lia.
  - intros Hlast Hmod.
    pose proof (last_batch_size n mb_n (Z.of_nat q) ltac:(lia) Hmb
                  Hqlo Hqhi) as Hsize.
    rewrite decide_False in Hsize by exact Hmod.
    rewrite <- Hsize. unfold n. nia.
  - intros Hlast Hmod.
    pose proof (last_batch_size n mb_n (Z.of_nat q) ltac:(lia) Hmb
                  Hqlo Hqhi) as Hsize.
    rewrite decide_True in Hsize by exact Hmod.
    unfold n in *. nia.
Qed.

Lemma batches_cover_tiles_witness :
  exists labels calls,
    classify_batches nat echo_classifier [1; 2; 3; 4; 5; 6; 7]%nat 3
      (replicate 7 0)
    = Ok (labels, 7, calls)
    /\ concat calls = [1; 2; 3; 4; 5; 6; 7]%nat
    /\ labels = concat (echo_classifier <$> calls)
    /\ length calls = 3%nat.
Proof.
  destruct (batches_cover_tiles nat echo_classifier [1; 2; 3; 4; 5; 6; 7]%nat 3
              (replicate 7 0))
    as (labels & calls & Hrun & Hcat & Hlab & _ & Hcount & _).
  - intros b. apply length_fmap.
  - lia.
  - reflexivity.
  - exists labels, calls. split; [exact Hrun|]. split; [exact Hcat|].
    split; [exact Hlab|]. apply Nat2Z.inj. rewrite Hcount. reflexivity.
Defined.

(** ** Assembly of a single block *)

Lemma get_concatenated_col_single (m : ndarray) :
  get_concatenated_col [m] = Ok m.
Proof.
  unfold get_concatenated_col. rewrite decide_True by constructor.
  simpl. rewrite Nat.add_0_r, app_nil_r. destruct m; reflexivity.
Qed.

(** With the partition factor 1 the assembled grid is the label matrix of
    the only block. *)
Lemma assemble_single (tile : Type) (classify : list tile -> list Z)
    (mb_n : Z) (blocks : Z -> Z -> Z * Z * list tile)
    (sub_img_h sub_img_w : Z) (subs : list tile) (m : ndarray) :
  blocks 0 0 = (sub_img_h, sub_img_w, subs) ->
  block_predictions tile classify mb_n sub_img_h sub_img_w subs = Ok m ->
  assemble tile classify mb_n 1 blocks = Ok m.
Proof.
  intros Hblock Hm. unfold assemble. change (range 1) with [0].
  simpl. rewrite Hblock, Hm. simpl.
  apply get_concatenated_col_single.
Qed.

(** C8: with the partition factor 1 the assembled label grid is the
    row-major reshape, to [sub_img_h / sub_h] rows and [sub_img_w / sub_w]
    columns, of the flat vector of labels that the batch loop obtained from
    the classifier for the only block. *)
Theorem single_block_roundtrip (tile : Type) (classify : list tile -> list Z)
    (mb_n : Z) (blocks : Z -> Z -> Z * Z * list tile)
    (sub_img_h sub_img_w : Z) (subs : list tile) :
  blocks 0 0 = (sub_img_h, sub_img_w, subs) ->
  (forall b, length (classify b) = length b) ->
  1 <= mb_n ->
  0 <= sub_img_h -> 0 <= sub_img_w ->
  Z.of_nat (length subs) = (sub_img_h / sub_h) * (sub_img_w / sub_w) ->
  exists zeros labels i calls m,
    np_zeros ((sub_img_h / sub_h) * (sub_img_w / sub_w)) = Ok zeros
    /\ classify_batches tile classify subs mb_n zeros = Ok (labels, i, calls)
    /\ labels = concat (classify <$> calls)
    /\ np_reshape labels (sub_img_h / sub_h) (sub_img_w / sub_w) = Ok m
    /\ assemble tile classify mb_n 1 blocks = Ok m
    /\ m = {| shape0 := Z.to_nat (sub_img_h / sub_h);
              shape1 := Z.to_nat (sub_img_w / sub_w);
              data := labels |}.
Proof.
  intros Hblock Hcl Hmb Hh Hw Hlen.
  set (rows := sub_img_h / sub_h) in *. set (cols := sub_img_w / sub_w) in *.
  assert (Hrows : 0 <= rows) by (apply Z.div_pos; [exact Hh|reflexivity]).
  assert (Hcols : 0 <= cols) by (apply Z.div_pos; [exact Hw|reflexivity]).
  assert (Hz : np_zeros (rows * cols) = Ok (replicate (Z.to_nat (rows * cols)) 0)).
  { unfold np_zeros. rewrite decide_False by nia. reflexivity. }
  destruct (batches_count_and_labels tile classify subs mb_n
              (replicate (Z.to_nat (rows * cols)) 0) Hcl Hmb)
    as (labels & calls & Hrun & Hlab & Hlabels).
  { rewrite length_replicate. lia. }
  assert (Hre : np_reshape labels rows cols
                = Ok {| shape0 := Z.to_nat rows; shape1 := Z.to_nat cols;
                        data := labels |}).
  { unfold np_reshape. rewrite decide_True; [reflexivity|].
    split; [exact Hrows|]. split; [exact Hcols|]. lia. }
  eexists _, labels, _, calls, _.
  split; [exact Hz|]. split; [exact Hrun|]. split; [exact Hlab|].
  split; [exact Hre|]. split; [|reflexivity].
  apply (assemble_single _ _ _ _ _ _ _ _ Hblock).
  unfold block_predictions. fold rows cols. rewrite Hz. simpl rbind.
  rewrite Hrun. simpl rbind. exact Hre.
Qed.

Lemma single_block_roundtrip_witness :
  exists m,
    assemble nat echo_classifier 2 1
      (fun _ _ => (160, 435, [1; 2; 3; 4; 5; 6]%nat)) = Ok m
    /\ m = NdArray 2 3 [1; 2; 3; 4; 5; 6].
Proof.
  destruct (single_block_roundtrip nat echo_classifier 2
              (fun _ _ => (160, 435, [1; 2; 3; 4; 5; 6]%nat))
              160 435 [1; 2; 3; 4; 5; 6]%nat)
    as (zeros & labels & i & calls & m & Hz & Hrun & _ & _ & Hm & _).
  - reflexivity.
  - intros b. apply length_fmap.
  - lia.
  - lia.
  - lia.
  - reflexivity.
  - exists m. split; [exact Hm|].
    assert (Hc : assemble nat echo_classifier 2 1
                   (fun _ _ => (160, 435, [1; 2; 3; 4; 5; 6]%nat))
                 = Ok (NdArray 2 3 [1; 2; 3; 4; 5; 6])) by reflexivity.
    congruence.
Defined.

(** ** Further properties of [get_neighbors] and [cost] *)

(** X1: for every argument, also a cell outside the grid or a grid without
    cells, the loop of [get_neighbors] that deletes backwards through the
    list raises nothing and returns the samples inside the grid, each once,
    in the order in which the list was written. *)
Theorem get_neighbors_in_order (i j h w : Z) :
  exists l,
    get_neighbors i j h w = Ok l
    /\ l `sublist_of`
         [(i-1, j-1); (i-1, j); (i-1, j+1); (i, j-1); (i, j+1);
          (i+1, j-1); (i+1, j); (i+1, j+1)]
    /\ NoDup l
    /\ (forall p, p ∈ l <-> p ∈ samples i j /\ inside h w p)
    /\ ((h <= 0 \/ w <= 0) -> l = []).
Proof.
  exists (filter (inside h w) (samples i j)).
  split; [apply get_neighbors_filter|].
  split; [apply (sublist_filter (inside h w) (samples i j))|].
  split; [apply NoDup_filter, NoDup_samples|].
  split; [intros p; rewrite list_elem_of_filter; tauto|].
  intros Hhw. apply elem_of_nil_inv. intros p Hp.
  apply list_elem_of_filter in Hp as [[H1 H2] _]. lia.
Qed.

(** X2: neighborhood is symmetric and irreflexive: of two cells of the
    grid each is among the neighbors of the other or neither is, and no
    cell is its own neighbor. *)
Theorem neighbors_symmetric (h w : Z) (p q : Z * Z) :
  inside h w p -> inside h w q ->
  exists lp lq,
    get_neighbors p.1 p.2 h w = Ok lp
    /\ get_neighbors q.1 q.2 h w = Ok lq
    /\ (q ∈ lp <-> p ∈ lq)
    /\ p ∉ lp.
Proof.
  intros Hp Hq. eexists _, _.
  split; [apply get_neighbors_filter|].
  split; [apply get_neighbors_filter|].
  destruct p as [pi pj], q as [qi qj]. cbn [fst snd].
  rewrite !list_elem_of_filter, !samples_chebyshev. unfold chebyshev.
  cbn [fst snd]. split.
  - split; intros [_ Hd]; (split; [assumption|lia]).
  - intros [_ Hd]. lia.
Qed.

Lemma neighbors_symmetric_witness :
  exists lp lq,
    get_neighbors 0 0 2 3 = Ok lp
    /\ get_neighbors 1 1 2 3 = Ok lq
    /\ ((1, 1) ∈ lp <-> (0, 0) ∈ lq)
    /\ (0, 0) ∉ lp.
Proof.
  apply (neighbors_symmetric 2 3 (0, 0) (1, 1)); unfold inside; simpl; lia.
Defined.

Lemma agreeing_bounds (a : ndarray) (nbs : list (Z * Z)) (c : Z) :
  0 <= agreeing a nbs c <= Z.of_nat (length nbs).
Proof.
  unfold agreeing, sumZ, indicator.
  induction nbs as [|n nbs IH]; simpl; [lia|]. case_decide; lia.
Qed.

Lemma agreeing_zero (a : ndarray) (nbs : list (Z * Z)) (c : Z) :
  agreeing a nbs c = 0 <-> forall n, n ∈ nbs -> cell a n <> c.
Proof.
  unfold agreeing, sumZ, indicator.
  induction nbs as [|n nbs IH]; simpl.
  - split; [intros _ n Hn; inversion Hn|reflexivity].
  - pose proof (agreeing_bounds a nbs c) as Hb.
    unfold agreeing, sumZ, indicator in Hb. split.
    + intros H m Hm. apply elem_of_cons in Hm as [-> | Hm].
      * case_decide; [lia|congruence].
      * apply IH; [case_decide; lia|exact Hm].
    + intros H. rewrite decide_False.
      * apply IH. intros m Hm. apply H. apply elem_of_cons. auto.
      * intros ->. apply (H n); [apply elem_of_cons; auto|reflexivity].
Qed.

Lemma cost_at_agreeing (a : ndarray) (i j c : Z) :
  cost_at a i j c
  = - (indicator (c = cell a (i, j)) + 10 * agreeing a (neighborhood a i j) c).
Proof.
  unfold cost_at, agreeing.
  rewrite kronecker_delta_indicator, np_sum_kronecker. lia.
Qed.

Lemma length_neighborhood (a : ndarray) (i j : Z) :
  (length (neighborhood a i j) <= 8)%nat.
Proof. apply (length_filter (inside (height a) (width a)) (samples i j)). Qed.

Lemma neighborhood_code (a : ndarray) (i j : Z) :
  get_neighbors i j (height a) (width a) = Ok (neighborhood a i j).
Proof. apply get_neighbors_filter. Qed.

(** X3: for a cell of the grid, [cost] raises nothing, leaves the store
    alone, and returns minus the indicator of the cell's own label plus
    ten for every neighbor that holds the candidate: a value between -81
    and 0, which is 0 exactly when neither the cell nor a neighbor holds
    the candidate. *)
Theorem cost_bounds (σ : heap) (l : loc) (a : ndarray) (i j c : Z) :
  σ !! l = Some a -> wf_array a -> inside (height a) (width a) (i, j) ->
  exists nbs v,
    get_neighbors i j (height a) (width a) = Ok nbs
    /\ cost c (cell a (i, j)) l nbs σ = (Ok v, σ)
    /\ v = - (indicator (c = cell a (i, j)) + 10 * agreeing a nbs c)
    /\ -81 <= v <= 0
    /\ (v = 0 <->
        cell a (i, j) <> c /\ forall n, n ∈ nbs -> cell a n <> c).
Proof.
  intros Hl Hwf Hin.
  exists (neighborhood a i j), (cost_at a i j c).
  split; [apply neighborhood_code|].
  split; [apply (cost_ok σ l a Hl Hwf); reflexivity|].
  split; [apply cost_at_agreeing|].
  rewrite cost_at_agreeing.
  pose proof (agreeing_bounds a (neighborhood a i j) c) as Hb.
  pose proof (length_neighborhood a i j) as Hlen.
  rewrite <- agreeing_zero. unfold indicator.
  split; [case_decide; lia|].
  case_decide as Hown; split; intros Hv; lia.
Qed.

Lemma cost_bounds_witness :
  let a := NdArray 2 3 [5; 5; 1; 2; 2; 1] in
  exists nbs v,
    get_neighbors 0 0 (height a) (width a) = Ok nbs
    /\ cost 2 (cell a (0, 0)) 0%nat nbs [a] = (Ok v, [a])
    /\ v = - (indicator (2 = cell a (0, 0)) + 10 * agreeing a nbs 2)
    /\ -81 <= v <= 0
    /\ (v = 0 <->
        cell a (0, 0) <> 2 /\ forall n, n ∈ nbs -> cell a n <> 2).
Proof.
  apply (cost_bounds [NdArray 2 3 [5; 5; 1; 2; 2; 1]] 0%nat
           (NdArray 2 3 [5; 5; 1; 2; 2; 1]) 0 0 2).
  - reflexivity.
  - reflexivity.
  - unfold inside, height, width. simpl. lia.
Defined.

(** ** Further properties of one epoch *)

Lemma one_epoch (σ : heap) (src : loc) (a : ndarray) (class_n : Z) :
  σ !! src = Some a -> wf_array a -> 1 <= class_n ->
  exists r σ',
    denoise_predictions src class_n 1 σ = (Ok r, σ')
    /\ σ' !! r = Some (epoch_step class_n a).
Proof.
  intros Hsrc Hwf Hclass.
  destruct (denoise_returns_iterate class_n src a σ Hsrc Hwf Hclass 1
              ltac:(lia)) as (r & σ' & Hrun & _ & _ & Hr).
  exists r, σ'. split; [exact Hrun|exact Hr].
Qed.

Lemma new_label_plurality (class_n : Z) (a : ndarray) (i j c : Z) :
  1 <= class_n -> in_range class_n c ->
  agreeing a (neighborhood a i j) c
  <= agreeing a (neighborhood a i j) (new_label class_n a i j).
Proof.
  intros Hclass Hc.
  destruct (new_label_least_argmin class_n a i j Hclass) as (_ & Hle & _).
  specialize (Hle c Hc). rewrite !cost_at_agreeing in Hle.
  unfold indicator in Hle. repeat case_decide; lia.
Qed.

Lemma new_label_kept_iff (class_n : Z) (a : ndarray) (i j : Z) :
  in_range class_n (cell a (i, j)) ->
  new_label class_n a i j = cell a (i, j)
  <-> forall c, in_range class_n c ->
        agreeing a (neighborhood a i j) c
        <= agreeing a (neighborhood a i j) (cell a (i, j)).
Proof.
  intros Hown. assert (Hclass : 1 <= class_n) by (unfold in_range in Hown; lia).
  split.
  - intros Heq c Hc. rewrite <- Heq. apply new_label_plurality; assumption.
  - intros Hall. apply new_label_unique. split; [exact Hown|].
    split; intros c Hc; rewrite !cost_at_agreeing;
      (assert (Hc' : in_range class_n c) by (unfold in_range in *; lia));
      specialize (Hall c Hc'); unfold indicator; repeat case_decide; lia.
Qed.

(** X4: the label that an epoch gives a cell is a class of [[0, class_n)]
    that no other such class outnumbers among the neighbors of the cell:
    the pairwise weight 10 outweighs the unary weight 1. *)
Theorem new_label_is_plurality (σ : heap) (src : loc) (a : ndarray)
    (class_n i j : Z) :
  σ !! src = Some a -> wf_array a -> 1 <= class_n ->
  inside (height a) (width a) (i, j) ->
  exists r σ' b nbs,
    denoise_predictions src class_n 1 σ = (Ok r, σ')
    /\ σ' !! r = Some b
    /\ get_neighbors i j (height a) (width a) = Ok nbs
    /\ in_range class_n (cell b (i, j))
    /\ forall c, in_range class_n c ->
         agreeing a nbs c <= agreeing a nbs (cell b (i, j)).
Proof.
  intros Hsrc Hwf Hclass Hin.
  destruct (one_epoch σ src a class_n Hsrc Hwf Hclass) as (r & σ' & Hrun & Hr).
  exists r, σ', (epoch_step class_n a), (neighborhood a i j).
  split; [exact Hrun|]. split; [exact Hr|]. split; [apply neighborhood_code|].
  rewrite (cell_epoch_step _ _ _ _ Hin). split.
  - apply (new_label_least_argmin class_n a i j Hclass).
  - intros c Hc. apply new_label_plurality; assumption.
Qed.

Lemma new_label_is_plurality_witness :
  let a := NdArray 2 3 [5; 5; 1; 2; 2; 1] in
  exists r σ' b nbs,
    denoise_predictions 0%nat 3 1 [a] = (Ok r, σ')
    /\ σ' !! r = Some b
    /\ get_neighbors 0 1 (height a) (width a) = Ok nbs
    /\ in_range 3 (cell b (0, 1))
    /\ forall c, in_range 3 c ->
         agreeing a nbs c <= agreeing a nbs (cell b (0, 1)).
Proof.
  apply (new_label_is_plurality [NdArray 2 3 [5; 5; 1; 2; 2; 1]] 0%nat
           (NdArray 2 3 [5; 5; 1; 2; 2; 1]) 3 0 1).
  - reflexivity.
  - reflexivity.
  - lia.
  - unfold inside, height, width. simpl. lia.
Defined.

(** X5: a cell whose label is a class of [[0, class_n)] keeps it through an
    epoch exactly when no class of that range is held by more of its
    neighbors than its own label is: among classes that tie on the
    neighbors the unary term decides for the current label. *)
Theorem label_kept_iff (σ : heap) (src : loc) (a : ndarray)
    (class_n i j : Z) :
  σ !! src = Some a -> wf_array a ->
  inside (height a) (width a) (i, j) ->
  in_range class_n (cell a (i, j)) ->
  exists r σ' b nbs,
    denoise_predictions src class_n 1 σ = (Ok r, σ')
    /\ σ' !! r = Some b
    /\ get_neighbors i j (height a) (width a) = Ok nbs
    /\ (cell b (i, j) = cell a (i, j)
        <-> forall c, in_range class_n c ->
              agreeing a nbs c <= agreeing a nbs (cell a (i, j))).
Proof.
  intros Hsrc Hwf Hin Hown.
  assert (Hclass : 1 <= class_n) by (unfold in_range in Hown; lia).
  destruct (one_epoch σ src a class_n Hsrc Hwf Hclass) as (r & σ' & Hrun & Hr).
  exists r, σ', (epoch_step class_n a), (neighborhood a i j).
  split; [exact Hrun|]. split; [exact Hr|]. split; [apply neighborhood_code|].
  rewrite (cell_epoch_step _ _ _ _ Hin). apply new_label_kept_iff, Hown.
Qed.

Lemma label_kept_iff_witness :
  let a := NdArray 2 3 [5; 5; 1; 2; 2; 1] in
  exists r σ' b nbs,
    denoise_predictions 0%nat 3 1 [a] = (Ok r, σ')
    /\ σ' !! r = Some b
    /\ get_neighbors 0 2 (height a) (width a) = Ok nbs
    /\ (cell b (0, 2) = cell a (0, 2)
        <-> forall c, in_range 3 c ->
              agreeing a nbs c <= agreeing a nbs (cell a (0, 2))).
Proof.
  apply (label_kept_iff [NdArray 2 3 [5; 5; 1; 2; 2; 1]] 0%nat
           (NdArray 2 3 [5; 5; 1; 2; 2; 1]) 3 0 2).
  - reflexivity.
  - reflexivity.
  - unfold inside, height, width. simpl. lia.
  - unfold in_range, cell. simpl. lia.
Defined.

(** X6: when all the neighbors of a cell, and there is at least one, hold
    the same class of [[0, class_n)], an epoch gives the cell that class,
    whatever the cell held, a label outside the range included. *)
Theorem unanimous_neighbors_win (σ : heap) (src : loc) (a : ndarray)
    (class_n i j c : Z) :
  σ !! src = Some a -> wf_array a ->
  inside (height a) (width a) (i, j) ->
  in_range class_n c ->
  exists r σ' b nbs,
    denoise_predictions src class_n 1 σ = (Ok r, σ')
    /\ σ' !! r = Some b
    /\ get_neighbors i j (height a) (width a) = Ok nbs
    /\ (nbs <> [] -> (forall n, n ∈ nbs -> cell a n = c) ->
        cell b (i, j) = c).
Proof.
  intros Hsrc Hwf Hin Hc.
  assert (Hclass : 1 <= class_n) by (unfold in_range in Hc; lia).
  destruct (one_epoch σ src a class_n Hsrc Hwf Hclass) as (r & σ' & Hrun & Hr).
  exists r, σ', (epoch_step class_n a), (neighborhood a i j).
  split; [exact Hrun|]. split; [exact Hr|]. split; [apply neighborhood_code|].
  intros Hne Hall. rewrite (cell_epoch_step _ _ _ _ Hin).
  pose proof (new_label_plurality class_n a i j c Hclass Hc) as Hpl.
  assert (Hforall : Forall (fun p => cell a p = c) (neighborhood a i j))
    by (apply Forall_forall; exact Hall).
  unfold agreeing in Hpl.
  rewrite !(sumZ_indicator_const a c _ _ Hforall) in Hpl.
  rewrite decide_True in Hpl by reflexivity.
  destruct (neighborhood a i j) as [|n nbs]; [congruence|].
  case_decide as Heq; [exact Heq|]. simpl length in Hpl. lia.
Qed.

Lemma unanimous_neighbors_win_witness :
  let a := NdArray 1 3 [2; 9; 2] in
  exists r σ' b nbs,
    denoise_predictions 0%nat 3 1 [a] = (Ok r, σ')
    /\ σ' !! r = Some b
    /\ get_neighbors 0 1 (height a) (width a) = Ok nbs
    /\ (nbs <> [] -> (forall n, n ∈ nbs -> cell a n = 2) ->
        cell b (0, 1) = 2).
Proof.
  apply (unanimous_neighbors_win [NdArray 1 3 [2; 9; 2]] 0%nat
           (NdArray 1 3 [2; 9; 2]) 3 0 1 2).
  - reflexivity.
  - reflexivity.
  - unfold inside, height, width. simpl. lia.
  - unfold in_range. lia.
Defined.

(** ** Further properties of several epochs *)

Lemma unflatten_inside (a : ndarray) (k : nat) :
  (k < shape0 a * shape1 a)%nat ->
  inside (height a) (width a)
    (Z.of_nat (k / shape1 a), Z.of_nat (k mod shape1 a)).
Proof.
  intros Hk. assert (Hw : (0 < shape1 a)%nat) by nia.
  pose proof (Nat.mod_upper_bound k (shape1 a)) as Hmod.
  assert (Hdiv : (k / shape1 a < shape0 a)%nat)
    by (apply Nat.Div0.div_lt_upper_bound; lia).
  unfold inside, height, width. cbn [fst snd]. lia.
Qed.

Lemma elem_epoch_step (class_n : Z) (a : ndarray) (v : Z) :
  v ∈ data (epoch_step class_n a) ->
  exists i j, inside (height a) (width a) (i, j) /\ v = new_label class_n a i j.
Proof.
  simpl. intros Hv. apply list_elem_of_fmap in Hv as (k & -> & Hk).
  apply elem_of_seq in Hk. eexists _, _. split; [|reflexivity].
  apply unflatten_inside. lia.
Qed.

Lemma cell_in_data (a : ndarray) (p : Z * Z) :
  wf_array a -> inside (height a) (width a) p -> cell a p ∈ data a.
Proof.
  intros Hwf Hp. unfold cell.
  destruct (lookup_lt_is_Some_2 (data a)
              (Z.to_nat p.1 * shape1 a + Z.to_nat p.2)) as [v Hv].
  { rewrite Hwf. apply offset_inside_lt, Hp. }
  rewrite Hv. simpl. eapply list_elem_of_lookup_2, Hv.
Qed.

Lemma window_in_data (a : ndarray) (i j v : Z) :
  wf_array a -> inside (height a) (width a) (i, j) ->
  v ∈ window a i j -> v ∈ data a.
Proof.
  intros Hwf Hin Hv. unfold window in Hv.
  apply elem_of_cons in Hv as [-> | Hv]; [apply cell_in_data; assumption|].
  apply list_elem_of_fmap in Hv as (n & -> & Hn).
  apply cell_in_data; [exact Hwf|].
  apply list_elem_of_filter in Hn as [Hn _]. exact Hn.
Qed.

Lemma cost_at_nonpos (a : ndarray) (i j c : Z) : cost_at a i j c <= 0.
Proof.
  rewrite cost_at_agreeing.
  pose proof (agreeing_bounds a (neighborhood a i j) c).
  unfold indicator. case_decide; lia.
Qed.

Lemma cost_at_outside_window (a : ndarray) (i j c : Z) :
  c ∉ window a i j -> cost_at a i j c = 0.
Proof.
  intros Hc. rewrite cost_at_agreeing.
  assert (Hown : c <> cell a (i, j)).
  { intros ->. apply Hc. unfold window. apply elem_of_cons. auto. }
  assert (Hnb : agreeing a (neighborhood a i j) c = 0).
  { apply agreeing_zero. intros n Hn Heq. apply Hc. unfold window.
    apply elem_of_cons. right. rewrite <- Heq. apply list_elem_of_fmap_2, Hn. }
  rewrite Hnb. unfold indicator. rewrite decide_False by exact Hown. lia.
Qed.

Lemma new_label_window (class_n : Z) (a : ndarray) (i j : Z) :
  1 <= class_n ->
  new_label class_n a i j = 0 \/ new_label class_n a i j ∈ window a i j.
Proof.
  intros Hclass.
  destruct (new_label_least_argmin class_n a i j Hclass) as (Hr & _ & Hlt).
  destruct (decide (new_label class_n a i j = 0)) as [|Hne]; [auto|right].
  destruct (decide (new_label class_n a i j ∈ window a i j)) as [|Hout]; [auto|].
  exfalso. specialize (Hlt 0 ltac:(lia)).
  rewrite (cost_at_outside_window _ _ _ _ Hout) in Hlt.
  pose proof (cost_at_nonpos a i j 0). lia.
Qed.

Lemma epoch_step_in_range (class_n : Z) (a : ndarray) :
  1 <= class_n -> Forall (in_range class_n) (data (epoch_step class_n a)).
Proof.
  intros Hclass. apply Forall_forall. intros v Hv.
  apply elem_epoch_step in Hv as (i & j & _ & ->).
  apply (new_label_least_argmin class_n a i j Hclass).
Qed.

Lemma iterate_S (class_n : Z) (k : nat) (a : ndarray) :
  iterate class_n (S k) a = epoch_step class_n (iterate class_n k a).
Proof. reflexivity. Qed.

Lemma iterate_labels_from_input (class_n : Z) (a : ndarray) (k : nat) :
  wf_array a -> 1 <= class_n ->
  Forall (fun v => v = 0 \/ v ∈ data a) (data (iterate class_n k a)).
Proof.
  intros Hwf Hclass. induction k as [|k IH].
  - apply Forall_forall. intros v Hv. right. exact Hv.
  - rewrite iterate_S. apply Forall_forall. intros v Hv.
    apply elem_epoch_step in Hv as (i & j & Hin & ->).
    destruct (new_label_window class_n (iterate class_n k a) i j Hclass)
      as [H0 | Hw]; [auto|].
    apply (window_in_data _ _ _ _ (wf_iterate _ _ _ Hwf) Hin) in Hw.
    rewrite Forall_forall in IH. apply IH, Hw.
Qed.

(** X7: denoising invents no class: with at least one class and one
    epoch, every label of the returned grid is 0 or a label that the
    input grid holds somewhere. *)
Theorem denoise_invents_no_class (σ : heap) (src : loc) (a : ndarray)
    (class_n epochs : Z) :
  σ !! src = Some a -> wf_array a -> 1 <= class_n -> 1 <= epochs ->
  exists r σ' b,
    denoise_predictions src class_n epochs σ = (Ok r, σ')
    /\ σ' !! r = Some b
    /\ Forall (fun v => v = 0 \/ v ∈ data a) (data b).
Proof.
  intros Hsrc Hwf Hclass He.
  destruct (denoise_returns_iterate class_n src a σ Hsrc Hwf Hclass epochs He)
    as (r & σ' & Hrun & _ & _ & Hr).
  exists r, σ', (iterate class_n (Z.to_nat epochs) a).
  split; [exact Hrun|]. split; [exact Hr|].
  apply iterate_labels_from_input; assumption.
Qed.

Lemma denoise_invents_no_class_witness :
  let a := NdArray 2 3 [5; 5; 1; 2; 2; 1] in
  exists r σ' b,
    denoise_predictions 0%nat 3 2 [a] = (Ok r, σ')
    /\ σ' !! r = Some b
    /\ Forall (fun v => v = 0 \/ v ∈ data a) (data b).
Proof.
  apply (denoise_invents_no_class [NdArray 2 3 [5; 5; 1; 2; 2; 1]] 0%nat
           (NdArray 2 3 [5; 5; 1; 2; 2; 1]) 3 2).
  - reflexivity.
  - reflexivity.
  - lia.
  - lia.
Defined.

(** X8: a grid none of whose labels is a class of [[0, class_n)] is not
    rejected: with at least one class and one epoch the call returns the
    grid of the same shape that holds class 0 everywhere. *)
Theorem out_of_range_grid_becomes_zero (σ : heap) (src : loc) (a : ndarray)
    (class_n epochs : Z) :
  σ !! src = Some a -> wf_array a -> 1 <= class_n -> 1 <= epochs ->
  Forall (fun v => ~ in_range class_n v) (data a) ->
  exists r σ',
    denoise_predictions src class_n epochs σ = (Ok r, σ')
    /\ σ' !! r = Some (uniform (shape0 a) (shape1 a) 0).
Proof.
  intros Hsrc Hwf Hclass He Hout.
  destruct (denoise_returns_iterate class_n src a σ Hsrc Hwf Hclass epochs He)
    as (r & σ' & Hrun & _ & _ & Hr).
  exists r, σ'. split; [exact Hrun|]. rewrite Hr. f_equal.
  destruct (Z.to_nat epochs) as [|k] eqn:Hk; [lia|].
  pose proof (iterate_labels_from_input class_n a (S k) Hwf Hclass) as Hfrom.
  pose proof (epoch_step_in_range class_n (iterate class_n k a) Hclass) as Hin.
  pose proof (wf_iterate class_n (S k) a Hwf) as Hwf'.
  destruct (shape_iterate class_n (S k) a) as [H0 H1].
  rewrite <- iterate_S in Hin.
  destruct (iterate class_n (S k) a) as [h w dat]. simpl in *. subst h w.
  unfold uniform. f_equal. unfold wf_array in Hwf'. simpl in Hwf'.
  rewrite <- Hwf'. symmetry. apply replicate_as_Forall. split; [reflexivity|].
  rewrite Forall_forall in *. intros v Hv.
  destruct (Hfrom v Hv) as [-> | Hd]; [reflexivity|].
  exfalso. apply (Hout v Hd). apply Hin, Hv.
Qed.

Lemma out_of_range_grid_becomes_zero_witness :
  exists r σ',
    denoise_predictions 0%nat 3 2 [NdArray 2 2 [7; -1; 3; 9]] = (Ok r, σ')
    /\ σ' !! r = Some (uniform 2 2 0).
Proof.
  apply (out_of_range_grid_becomes_zero [NdArray 2 2 [7; -1; 3; 9]] 0%nat
           (NdArray 2 2 [7; -1; 3; 9]) 3 2).
  - reflexivity.
  - reflexivity.
  - lia.
  - lia.
  - unfold in_range. repeat constructor; lia.
Defined.

Lemma iterate_add (class_n : Z) (n m : nat) (a : ndarray) :
  iterate class_n (m + n) a = iterate class_n m (iterate class_n n a).
Proof. unfold iterate. apply Nat.iter_add. Qed.

Lemma trajectory_add (class_n : Z) (a : ndarray) (n m : nat) :
  trajectory class_n a (n + m)
  = trajectory class_n a n ++ trajectory class_n (iterate class_n n a) m.
Proof.
  unfold trajectory. rewrite seq_app, fmap_app. f_equal. simpl.
  replace (seq n m) with (Nat.add n <$> seq 0 m)
    by (rewrite fmap_add_seq; f_equal; lia).
  rewrite <- list_fmap_compose.
  apply list_fmap_ext. intros _ k _. simpl. f_equal.
  replace (n + k)%nat with (k + n)%nat by lia. apply iterate_add.
Qed.

(** X9: epochs compose.  Denoising for [e1] epochs and then denoising the
    returned grid for [e2] epochs ends in the same store, with the same
    array returned, as denoising the input once for [e1 + e2] epochs. *)
Theorem denoise_epochs_compose (σ : heap) (src : loc) (a : ndarray)
    (class_n e1 e2 : Z) :
  σ !! src = Some a -> wf_array a -> 1 <= class_n -> 1 <= e1 -> 1 <= e2 ->
  exists r1 σ1 r2 σ2,
    denoise_predictions src class_n e1 σ = (Ok r1, σ1)
    /\ denoise_predictions r1 class_n e2 σ1 = (Ok r2, σ2)
    /\ denoise_predictions src class_n (e1 + e2) σ = (Ok r2, σ2).
Proof.
  intros Hsrc Hwf Hclass H1 H2.
  destruct (denoise_returns_iterate class_n src a σ Hsrc Hwf Hclass e1 H1)
    as (r1 & σ1 & Hrun1 & Hr1 & Hσ1 & Hlook1).
  pose proof (wf_iterate class_n (Z.to_nat e1) a Hwf) as Hwf1.
  exists r1, σ1, (length σ1 + Z.to_nat e2 - 1)%nat,
    (σ1 ++ trajectory class_n (iterate class_n (Z.to_nat e1) a) (Z.to_nat e2)).
  split; [exact Hrun1|].
  split; [apply (denoise_predictions_ok class_n r1 _ σ1 Hlook1 Hwf1 Hclass), H2|].
  rewrite (denoise_predictions_ok class_n src a σ Hsrc Hwf Hclass) by lia.
  rewrite Hσ1, length_app, length_trajectory, <- app_assoc.
  rewrite Z2Nat.inj_add, trajectory_add by lia.
  f_equal. f_equal. lia.
Qed.

Lemma denoise_epochs_compose_witness :
  let a := NdArray 2 3 [5; 5; 1; 2; 2; 1] in
  exists r1 σ1 r2 σ2,
    denoise_predictions 0%nat 3 1 [a] = (Ok r1, σ1)
    /\ denoise_predictions r1 3 2 σ1 = (Ok r2, σ2)
    /\ denoise_predictions 0%nat 3 (1 + 2) [a] = (Ok r2, σ2).
Proof.
  apply (denoise_epochs_compose [NdArray 2 3 [5; 5; 1; 2; 2; 1]] 0%nat
           (NdArray 2 3 [5; 5; 1; 2; 2; 1]) 3 1 2).
  - reflexivity.
  - reflexivity.
  - lia.
  - lia.
  - lia.
Defined.

Lemma iterate_fixed (class_n : Z) (a : ndarray) (k : nat) :
  epoch_step class_n a = a -> iterate class_n k a = a.
Proof.
  intros Hfix. induction k as [|k IH]; [reflexivity|].
  rewrite iterate_S, IH. exact Hfix.
Qed.

(** X10: a grid that one epoch returns unchanged is returned unchanged by
    every positive number of epochs: the relaxation does not leave a fixed
    point again. *)
Theorem fixed_point_persists (σ : heap) (src : loc) (a : ndarray)
    (class_n epochs : Z) :
  σ !! src = Some a -> wf_array a -> 1 <= class_n -> 1 <= epochs ->
  (exists r σ',
      denoise_predictions src class_n 1 σ = (Ok r, σ') /\ σ' !! r = Some a) ->
  exists r σ',
    denoise_predictions src class_n epochs σ = (Ok r, σ')
    /\ σ' !! r = Some a.
Proof.
  intros Hsrc Hwf Hclass He (r1 & σ1 & Hrun1 & Hr1).
  destruct (one_epoch σ src a class_n Hsrc Hwf Hclass)
    as (r1' & σ1' & Hrun1' & Hr1').
  rewrite Hrun1 in Hrun1'. injection Hrun1' as <- <-.
  assert (Hfix : epoch_step class_n a = a) by congruence.
  destruct (denoise_returns_iterate class_n src a σ Hsrc Hwf Hclass epochs He)
    as (r & σ' & Hrun & _ & _ & Hr).
  exists r, σ'. split; [exact Hrun|].
  rewrite Hr, iterate_fixed by exact Hfix. reflexivity.
Qed.

Lemma fixed_point_persists_witness :
  let a := NdArray 2 4 [0; 0; 1; 1; 0; 0; 1; 1] in
  exists r σ',
    denoise_predictions 0%nat 2 5 [a] = (Ok r, σ') /\ σ' !! r = Some a.
Proof.
  apply (fixed_point_persists [NdArray 2 4 [0; 0; 1; 1; 0; 0; 1; 1]] 0%nat
           (NdArray 2 4 [0; 0; 1; 1; 0; 0; 1; 1]) 2 5).
  - reflexivity.
  - reflexivity.
  - lia.
  - lia.
  - eexists _, _. split; reflexivity.
Defined.

Lemma new_label_more_classes (class_n class_n' : Z) (a : ndarray) (i j : Z) :
  class_n <= class_n' -> wf_array a ->
  Forall (in_range class_n) (data a) ->
  inside (height a) (width a) (i, j) ->
  new_label class_n' a i j = new_label class_n a i j.
Proof.
  intros Hle Hwf Hdata Hin. rewrite Forall_forall in Hdata.
  assert (Hwin : forall v, v ∈ window a i j -> in_range class_n v)
    by (intros v Hv; apply Hdata, (window_in_data a i j v Hwf Hin Hv)).
  assert (Hclass : 1 <= class_n).
  { specialize (Hwin (cell a (i, j))). unfold window, in_range in Hwin.
    specialize (Hwin ltac:(apply elem_of_cons; auto)). lia. }
  destruct (new_label_least_argmin class_n a i j Hclass) as (Hr & Hmin & Hlt).
  apply new_label_unique. split; [lia|]. split; [|exact Hlt].
  intros c Hc. destruct (decide (c < class_n)) as [Hlow | Hhigh].
  - apply Hmin. lia.
  - rewrite (cost_at_outside_window a i j c).
    + apply cost_at_nonpos.
    + intros Hmem. specialize (Hwin c Hmem). unfold in_range in Hwin. lia.
Qed.

Lemma epoch_step_more_classes (class_n class_n' : Z) (a : ndarray) :
  class_n <= class_n' -> wf_array a ->
  Forall (in_range class_n) (data a) ->
  epoch_step class_n' a = epoch_step class_n a.
Proof.
  intros Hle Hwf Hdata. unfold epoch_step. f_equal.
  apply list_fmap_ext. intros idx k Hk.
  apply list_elem_of_lookup_2, elem_of_seq in Hk.
  apply new_label_more_classes; [assumption..|].
  apply unflatten_inside. lia.
Qed.

Lemma iterate_more_classes (class_n class_n' : Z) (a : ndarray) (k : nat) :
  1 <= class_n <= class_n' -> wf_array a ->
  Forall (in_range class_n) (data a) ->
  iterate class_n' k a = iterate class_n k a.
Proof.
  intros Hle Hwf Hdata. induction k as [|k IH]; [reflexivity|].
  rewrite !iterate_S, IH. apply epoch_step_more_classes; [lia| |].
  - apply wf_iterate, Hwf.
  - destruct k as [|k]; [exact Hdata|].
    rewrite iterate_S. apply epoch_step_in_range. lia.
Qed.

(** X11: the number of classes matters only as a bound on the labels: when
    every label of the input is a class of [[0, class_n)], a call with
    more classes than [class_n] ends in the same store and returns the
    same grid as the call with [class_n]. *)
Theorem more_classes_same_result (σ : heap) (src : loc) (a : ndarray)
    (class_n class_n' epochs : Z) :
  σ !! src = Some a -> wf_array a -> 1 <= class_n -> class_n <= class_n' ->
  1 <= epochs ->
  Forall (in_range class_n) (data a) ->
  exists r σ',
    denoise_predictions src class_n epochs σ = (Ok r, σ')
    /\ denoise_predictions src class_n' epochs σ = (Ok r, σ').
Proof.
  intros Hsrc Hwf Hclass Hle He Hdata. eexists _, _.
  split; [apply (denoise_predictions_ok class_n src a σ Hsrc Hwf Hclass), He|].
  rewrite (denoise_predictions_ok class_n' src a σ Hsrc Hwf) by lia.
  f_equal. f_equal. unfold trajectory.
  apply list_fmap_ext. intros _ k _.
  apply iterate_more_classes; [lia|assumption..].
Qed.

Lemma more_classes_same_result_witness :
  let a := NdArray 2 3 [2; 2; 1; 0; 2; 1] in
  exists r σ',
    denoise_predictions 0%nat 3 2 [a] = (Ok r, σ')
    /\ denoise_predictions 0%nat 7 2 [a] = (Ok r, σ').
Proof.
  apply (more_classes_same_result [NdArray 2 3 [2; 2; 1; 0; 2; 1]] 0%nat
           (NdArray 2 3 [2; 2; 1; 0; 2; 1]) 3 7 2).
  - reflexivity.
  - reflexivity.
  - lia.
  - lia.
  - lia.
  - unfold in_range. repeat constructor; lia.
Defined.

(** ** Error and edge behaviour of [denoise_predictions] *)

Lemma range_cons (n : Z) : 1 <= n -> range n = 0 :: seqZ 1 (n - 1).
Proof. intros Hn. unfold range. rewrite seqZ_cons by lia. reflexivity. Qed.

(** X12: a negative class count is not accepted: [np.zeros] raises
    [ValueError] before the loop and before anything is allocated,
    whatever the number of epochs, zero included. *)
Theorem negative_class_count_raises (σ : heap) (src : loc) (a : ndarray)
    (class_n epochs : Z) :
  σ !! src = Some a -> class_n < 0 ->
  denoise_predictions src class_n epochs σ = (Raise ValueError, σ).
Proof.
  intros Hsrc Hc.
  assert (Hloop : epochs_loop src class_n epochs σ = (Raise ValueError, σ)).
  { unfold epochs_loop. rewrite (bind_ok _ _ _ _ _ (shape_ok _ _ _ Hsrc)).
    unfold np_zeros. rewrite decide_True by exact Hc. reflexivity. }
  unfold denoise_predictions. apply (bind_raise _ _ _ _ _ Hloop).
Qed.

Lemma negative_class_count_raises_witness :
  denoise_predictions 0%nat (-1) 0 [NdArray 1 1 [0]]
  = (Raise ValueError, [NdArray 1 1 [0]]).
Proof.
  apply (negative_class_count_raises [NdArray 1 1 [0]] 0%nat (NdArray 1 1 [0])).
  - reflexivity.
  - lia.
Defined.

(** X13: with no class at all, at least one epoch and a grid that has a
    cell, the first pixel fails: [np.argmin] of the empty cost buffer
    raises [ValueError], after the destination of the first epoch has been
    allocated. *)
Theorem zero_classes_raise (σ : heap) (src : loc) (a : ndarray) (epochs : Z) :
  σ !! src = Some a -> wf_array a ->
  (0 < shape0 a)%nat -> (0 < shape1 a)%nat -> 1 <= epochs ->
  denoise_predictions src 0 epochs σ
  = (Raise ValueError,
     σ ++ [with_data a (replicate (shape0 a * shape1 a) 0)]).
Proof.
  intros Hsrc Hwf Hh Hw He.
  set (σ1 := σ ++ [with_data a (replicate (shape0 a * shape1 a) 0)]).
  assert (Hpixel : pixel src (length σ) 0 (height a) (width a) 0 0 [] σ1
                   = (Raise ValueError, σ1)).
  { unfold pixel.
    rewrite (bind_ok _ _ _ _ _ (lift_ok _ _ _ (get_neighbors_filter _ _ _ _))).
    reflexivity. }
  assert (Hepoch : epoch 0 (height a) (width a) 0 (src, None, []) σ
                   = (Raise ValueError, σ1)).
  { unfold epoch.
    assert (Hz : np_zeros_like src σ = (Ok (length σ), σ1)).
    { unfold np_zeros_like. rewrite (bind_ok _ _ _ _ _ (deref_ok _ _ _ Hsrc)).
      reflexivity. }
    rewrite (bind_ok _ _ _ _ _ Hz).
    rewrite (range_cons (height a)) by (unfold height; lia).
    rewrite (range_cons (width a)) by (unfold width; lia).
    apply bind_raise. simpl for_each. apply bind_raise.
    apply bind_raise. exact Hpixel. }
  assert (Hloop : epochs_loop src 0 epochs σ = (Raise ValueError, σ1)).
  { unfold epochs_loop. rewrite (bind_ok _ _ _ _ _ (shape_ok _ _ _ Hsrc)).
    rewrite (bind_ok _ _ _ _ _ (lift_ok (np_zeros 0) [] _ eq_refl)).
    rewrite (range_cons epochs) by exact He. simpl for_each.
    apply bind_raise. exact Hepoch. }
  unfold denoise_predictions. apply (bind_raise _ _ _ _ _ Hloop).
Qed.

Lemma zero_classes_raise_witness :
  denoise_predictions 0%nat 0 2 [NdArray 1 2 [0; 1]]
  = (Raise ValueError, [NdArray 1 2 [0; 1]; NdArray 1 2 [0; 0]]).
Proof.
  apply (zero_classes_raise [NdArray 1 2 [0; 1]] 0%nat (NdArray 1 2 [0; 1]) 2).
  - reflexivity.
  - reflexivity.
  - simpl. lia.
  - simpl. lia.
  - lia.
Defined.

Lemma for_each_unchanged {A St} (xs : list A) (body : A -> St -> M St)
    (s : St) (σ : heap) :
  (forall x, x ∈ xs -> body x s σ = (Ok s, σ)) ->
  for_each xs body s σ = (Ok s, σ).
Proof.
  induction xs as [|x xs IH]; intros Hbody; simpl; [reflexivity|].
  rewrite (bind_ok _ _ _ _ _ (Hbody x ltac:(apply elem_of_cons; auto))).
  apply IH. intros y Hy. apply Hbody. apply elem_of_cons. auto.
Qed.

Lemma epoch_on_empty_grid (σ : heap) (src : loc) (a : ndarray)
    (class_n e : Z) (old : option loc) (costs : list Z) :
  σ !! src = Some a -> wf_array a -> (shape0 a * shape1 a = 0)%nat ->
  epoch class_n (height a) (width a) e (src, old, costs) σ
  = (Ok (length σ, Some (length σ), costs), σ ++ [a]).
Proof.
  intros Hsrc Hwf Hempty. unfold epoch.
  assert (Ha : with_data a (replicate (shape0 a * shape1 a) 0) = a).
  { unfold wf_array in Hwf. rewrite Hempty in *.
    apply nil_length_inv in Hwf. destruct a as [h w dat].
    simpl in *. subst dat. reflexivity. }
  assert (Hz : np_zeros_like src σ = (Ok (length σ), σ ++ [a])).
  { unfold np_zeros_like. rewrite (bind_ok _ _ _ _ _ (deref_ok _ _ _ Hsrc)).
    unfold alloc. fold (with_data a (replicate (shape0 a * shape1 a) 0)).
    rewrite Ha. reflexivity. }
  rewrite (bind_ok _ _ _ _ _ Hz).
  rewrite (bind_ok _ _ (σ ++ [a]) costs (σ ++ [a])); [reflexivity|].
  apply for_each_unchanged. intros i Hi.
  assert (Hw : shape1 a = 0%nat).
  { unfold range, height in Hi. apply elem_of_seqZ in Hi. nia. }
  unfold width. rewrite Hw. reflexivity.
Qed.

(** X14: a grid without a cell (no row or no column) is not an error: for
    every class count that is not negative, zero included, and at least
    one epoch, the call returns a new array equal to the input, one such
    array being allocated per epoch. *)
Theorem empty_grid_returned (σ : heap) (src : loc) (a : ndarray)
    (class_n epochs : Z) :
  σ !! src = Some a -> wf_array a -> (shape0 a * shape1 a = 0)%nat ->
  0 <= class_n -> 1 <= epochs ->
  exists r,
    denoise_predictions src class_n epochs σ
    = (Ok r, σ ++ replicate (Z.to_nat epochs) a)
    /\ (σ ++ replicate (Z.to_nat epochs) a) !! r = Some a
    /\ r <> src.
Proof.
  intros Hsrc Hwf Hempty Hclass He.
  pose proof (lookup_lt_Some _ _ _ Hsrc) as Hlt.
  destruct (for_range_inv
    (fun k (s : locals) σ' =>
       σ' = σ ++ replicate k a
       /\ σ' !! s.1.1 = Some a
       /\ (k = O -> s.1.2 = None)
       /\ ((0 < k)%nat -> s.1.2 = Some s.1.1 /\ (length σ <= s.1.1)%nat))
    epochs (epoch class_n (height a) (width a))
    (src, None, replicate (Z.to_nat class_n) 0) σ)
    as ([[s d] cs] & σ' & Hrun & -> & Hs & _ & Hd).
  - simpl. rewrite app_nil_r.
    split; [reflexivity|]. split; [exact Hsrc|]. split; [reflexivity|lia].
  - intros k [[s d] cs] σ1 Hk (-> & Hs & _ & _). simpl in Hs.
    rewrite (epoch_on_empty_grid _ s a class_n _ d cs Hs Hwf Hempty).
    eexists _, _. split; [reflexivity|]. cbn [fst snd].
    rewrite replicate_S_end, app_assoc. split; [reflexivity|].
    split; [rewrite lookup_app_r, Nat.sub_diag by lia; reflexivity|].
    split; [lia|]. intros _. split; [reflexivity|].
    rewrite length_app. lia.
  - simpl in Hs, Hd. destruct (Hd ltac:(lia)) as [-> Hfresh].
    exists s.
    assert (Hloop : epochs_loop src class_n epochs σ
                    = (Ok (s, Some s, cs), σ ++ replicate (Z.to_nat epochs) a)).
    { unfold epochs_loop. rewrite (bind_ok _ _ _ _ _ (shape_ok _ _ _ Hsrc)).
      unfold np_zeros. rewrite decide_False by lia. exact Hrun. }
    split; [|split; [exact Hs|lia]].
    unfold denoise_predictions. rewrite (bind_ok _ _ _ _ _ Hloop). reflexivity.
Qed.

Lemma empty_grid_returned_witness :
  exists r,
    denoise_predictions 0%nat 0 2 [NdArray 0 5 []]
    = (Ok r, [NdArray 0 5 []] ++ replicate (Z.to_nat 2) (NdArray 0 5 []))
    /\ ([NdArray 0 5 []] ++ replicate (Z.to_nat 2) (NdArray 0 5 [])) !! r
       = Some (NdArray 0 5 [])
    /\ r <> 0%nat.
Proof.
  apply (empty_grid_returned [NdArray 0 5 []] 0%nat (NdArray 0 5 []) 0 2).
  - reflexivity.
  - reflexivity.
  - reflexivity.
  - lia.
  - lia.
Defined.

(** ** Further properties of the batch loop *)

Lemma concat_fmap_fmap {A} (f : A -> Z) (bs : list (list A)) :
  concat ((fun b : list A => f <$> b) <$> bs) = f <$> concat bs.
Proof.
  induction bs as [|b bs IH]; csimpl; [reflexivity|].
  rewrite fmap_app, IH. reflexivity.
Qed.

(** X15: for a classifier that labels every tile on its own, the batch
    size does not show in the result: whatever [mb_n >= 1], the label
    matrix of a block has [sub_img_h / sub_h] rows and [sub_img_w / sub_w]
    columns, and its entry at row [i], column [j] is the label of the tile
    at position [i * columns + j] of the flat tile sequence. *)
Theorem batching_is_transparent (tile : Type) (label : tile -> Z)
    (mb_n sub_img_h sub_img_w : Z) (subs : list tile) :
  1 <= mb_n -> 0 <= sub_img_h -> 0 <= sub_img_w ->
  Z.of_nat (length subs) = (sub_img_h / sub_h) * (sub_img_w / sub_w) ->
  exists m,
    block_predictions tile (fun b => label <$> b) mb_n sub_img_h sub_img_w subs
    = Ok m
    /\ data m = label <$> subs
    /\ height m = sub_img_h / sub_h
    /\ width m = sub_img_w / sub_w
    /\ forall i j t,
         inside (height m) (width m) (i, j) ->
         subs !! Z.to_nat (i * (sub_img_w / sub_w) + j) = Some t ->
         cell m (i, j) = label t.
Proof.
  intros Hmb Hh Hw Hlen.
  set (rows := sub_img_h / sub_h) in *. set (cols := sub_img_w / sub_w) in *.
  assert (Hrows : 0 <= rows) by (apply Z.div_pos; [exact Hh|reflexivity]).
  assert (Hcols : 0 <= cols) by (apply Z.div_pos; [exact Hw|reflexivity]).
  set (classify := fun b : list tile => label <$> b).
  assert (Hcl : forall b, length (classify b) = length b)
    by (intros b; apply length_fmap).
  assert (Hm : (1 <= Z.to_nat mb_n)%nat) by lia.
  pose proof (classify_batches_ok tile classify Hcl subs (Z.to_nat mb_n) Hm
                (replicate (Z.to_nat (rows * cols)) 0)
                ltac:(rewrite length_replicate; lia)) as Hrun.
  rewrite Z2Nat.id in Hrun by lia.
  unfold classify in Hrun at 2. rewrite concat_fmap_fmap, concat_batches in Hrun.
  rewrite take_ge in Hrun by (apply batches_reach_end; exact Hm).
  exists {| shape0 := Z.to_nat rows; shape1 := Z.to_nat cols;
            data := label <$> subs |}.
  split.
  { unfold block_predictions. fold rows cols classify.
    unfold np_zeros. rewrite decide_False by nia. simpl rbind.
    rewrite Hrun. simpl rbind. unfold np_reshape.
    rewrite decide_True; [reflexivity|].
    rewrite length_fmap. lia. }
  split; [reflexivity|].
  unfold height, width. simpl shape0. simpl shape1.
  split; [lia|]. split; [lia|].
  intros i j t [Hi Hj] Ht. cbn [fst snd] in Hi, Hj.
  unfold cell. cbn [fst snd data shape1].
  replace (Z.to_nat i * Z.to_nat cols + Z.to_nat j)%nat
    with (Z.to_nat (i * cols + j)) by nia.
  rewrite list_lookup_fmap, Ht. reflexivity.
Qed.

Lemma batching_is_transparent_witness :
  exists m,
    block_predictions nat (fun b => Z.of_nat <$> b) 4 160 435
      [1; 2; 3; 4; 5; 6]%nat
    = Ok m
    /\ data m = Z.of_nat <$> [1; 2; 3; 4; 5; 6]%nat
    /\ height m = 160 / sub_h
    /\ width m = 435 / sub_w.
Proof.
  destruct (batching_is_transparent nat Z.of_nat 4 160 435
              [1; 2; 3; 4; 5; 6]%nat)
    as (m & Hrun & Hdata & Hrows & Hcols & _).
  - lia.
  - lia.
  - lia.
  - reflexivity.
  - exists m. auto.
Defined.

(** X16: a classifier that answers the first batch with a number of labels
    that is neither the number of tiles of the batch nor one makes the
    loop fail: the slice assignment raises [ValueError]; nothing is
    truncated or padded. *)
Theorem wrong_label_count_raises (tile : Type)
    (classify : list tile -> list Z) (subs : list tile) (mb_n : Z)
    (overlay_predictions : list Z) :
  1 <= mb_n -> subs <> [] ->
  length overlay_predictions = length subs ->
  length (classify (take (Z.to_nat mb_n) subs))
  <> length (take (Z.to_nat mb_n) subs) ->
  length (classify (take (Z.to_nat mb_n) subs)) <> 1%nat ->
  classify_batches tile classify subs mb_n overlay_predictions
  = Raise ValueError.
Proof.
  intros Hmb Hne Hov Hlen H1.
  assert (Hn : (1 <= length subs)%nat) by (destruct subs; [congruence|simpl; lia]).
  unfold classify_batches, xrange.
  rewrite decide_False by lia. rewrite decide_True by lia. simpl rbind.
  assert (Hq : 1 <= (Z.of_nat (length subs) - 0 + mb_n - 1) / mb_n)
    by (apply Z.div_le_lower_bound; lia).
  destruct (Z.to_nat ((Z.of_nat (length subs) - 0 + mb_n - 1) / mb_n))
    as [|q] eqn:Eq; [lia|].
  change (seq 0 (S q)) with (0%nat :: seq 1 q).
  rewrite fmap_cons. cbn [for_result]. cbv beta.
  assert (Hstep : classify_batch tile classify subs mb_n (0 + Z.of_nat 0 * mb_n)
                    (overlay_predictions, 0, []) = Raise ValueError).
  { unfold classify_batch.
    replace (0 + Z.of_nat 0 * mb_n) with (Z.of_nat (0 * Z.to_nat mb_n)) by lia.
    replace (Z.of_nat (0 * Z.to_nat mb_n) + mb_n)
      with (Z.of_nat (0 * Z.to_nat mb_n) + Z.of_nat (Z.to_nat mb_n)) by lia.
    rewrite slice_nth_batch. unfold nth_batch. rewrite drop_0.
    set (batch := take (Z.to_nat mb_n) subs) in *.
    assert (Hb : (length batch <= length subs)%nat)
      by (unfold batch; rewrite length_take; lia).
    unfold slice_assign.
    rewrite (clip_inside _ 0) by lia.
    replace (0 + Z.of_nat (length batch)) with (Z.of_nat (length batch)) by lia.
    rewrite clip_inside by lia. rewrite Nat.sub_0_r.
    rewrite decide_False by exact Hlen.
    destruct (classify batch) as [|x [|y v]]; simpl in *;
      [reflexivity|congruence|reflexivity]. }
  rewrite Hstep. reflexivity.
Qed.

Lemma wrong_label_count_raises_witness :
  classify_batches nat (fun b => [0; 0]) [1; 2; 3; 4; 5]%nat 3 (replicate 5 0)
  = Raise ValueError.
Proof.
  apply (wrong_label_count_raises nat (fun b => [0; 0]) [1; 2; 3; 4; 5]%nat 3
           (replicate 5 0)).
  - lia.
  - discriminate.
  - reflexivity.
  - simpl. lia.
  - simpl. lia.
Defined.

(** ** The whole image *)

(** X17: for an image that is a single block, [generate_predictions]
    stores the grid obtained by two epochs of denoising with seven classes
    from the row-major reshape of the classifier's labels (batches of
    100): a grid of [sub_img_h / sub_h] rows and [sub_img_w / sub_w]
    columns all of whose entries are classes of [[0, 7)], whatever labels
    the classifier gave; the arrays already in the store are left alone. *)
Theorem image_predictions_single_block (tile : Type)
    (classify : list tile -> list Z) (blocks : Z -> Z -> Z * Z * list tile)
    (sub_img_h sub_img_w : Z) (subs : list tile) (σ : heap) :
  blocks 0 0 = (sub_img_h, sub_img_w, subs) ->
  (forall b, length (classify b) = length b) ->
  0 <= sub_img_h -> 0 <= sub_img_w ->
  Z.of_nat (length subs) = (sub_img_h / sub_h) * (sub_img_w / sub_w) ->
  exists zeros labels i calls r σ' grid,
    np_zeros ((sub_img_h / sub_h) * (sub_img_w / sub_w)) = Ok zeros
    /\ classify_batches tile classify subs mb_n zeros = Ok (labels, i, calls)
    /\ image_predictions tile classify 1 blocks σ = (Ok r, σ')
    /\ σ' !! r = Some grid
    /\ grid = iterate 7 2 {| shape0 := Z.to_nat (sub_img_h / sub_h);
                             shape1 := Z.to_nat (sub_img_w / sub_w);
                             data := labels |}
    /\ height grid = sub_img_h / sub_h
    /\ width grid = sub_img_w / sub_w
    /\ Forall (in_range 7) (data grid)
    /\ σ `prefix_of` σ'.
Proof.
  intros Hblock Hcl Hh Hw Hlen.
  set (rows := sub_img_h / sub_h) in *. set (cols := sub_img_w / sub_w) in *.
  assert (Hrows : 0 <= rows) by (apply Z.div_pos; [exact Hh|reflexivity]).
  assert (Hcols : 0 <= cols) by (apply Z.div_pos; [exact Hw|reflexivity]).
  assert (Hz : np_zeros (rows * cols) = Ok (replicate (Z.to_nat (rows * cols)) 0)).
  { unfold np_zeros. rewrite decide_False by nia. reflexivity. }
  destruct (batches_count_and_labels tile classify subs mb_n
              (replicate (Z.to_nat (rows * cols)) 0) Hcl
              ltac:(unfold mb_n; lia))
    as (labels & calls & Hrun & _ & Hlabels).
  { rewrite length_replicate. lia. }
  set (m := {| shape0 := Z.to_nat rows; shape1 := Z.to_nat cols;
               data := labels |}).
  assert (Hre : np_reshape labels rows cols = Ok m).
  { unfold np_reshape. rewrite decide_True; [reflexivity|].
    split; [exact Hrows|]. split; [exact Hcols|]. lia. }
  assert (Hasm : assemble tile classify mb_n 1 blocks = Ok m).
  { apply (assemble_single _ _ _ _ _ _ _ _ Hblock).
    unfold block_predictions. fold rows cols. rewrite Hz. simpl rbind.
    rewrite Hrun. simpl rbind. exact Hre. }
  assert (Hwf : wf_array m) by (unfold wf_array, m; simpl; lia).
  assert (Hm : (σ ++ [m]) !! length σ = Some m)
    by (rewrite lookup_app_r, Nat.sub_diag by lia; reflexivity).
  destruct (denoise_returns_iterate 7 (length σ) m (σ ++ [m]) Hm Hwf
              ltac:(lia) epochs ltac:(unfold epochs; lia))
    as (r & σ' & Hden & _ & Hσ' & Hr).
  exists (replicate (Z.to_nat (rows * cols)) 0), labels,
    (Z.of_nat (length subs)), calls, r, σ', (iterate 7 2 m).
  split; [exact Hz|]. split; [exact Hrun|]. split.
  { unfold image_predictions.
    rewrite (bind_ok _ _ _ _ _ (lift_ok _ _ σ Hasm)).
    rewrite (bind_ok _ _ σ (length σ) (σ ++ [m])) by reflexivity.
    exact Hden. }
  split; [exact Hr|]. split; [reflexivity|].
  destruct (shape_iterate 7 2 m) as [H0 H1]. unfold height, width.
  rewrite H0, H1. simpl shape0. simpl shape1.
  split; [lia|]. split; [lia|]. split.
  - change (iterate 7 2 m) with (epoch_step 7 (iterate 7 1 m)).
    apply epoch_step_in_range. lia.
  - rewrite Hσ', <- app_assoc. apply prefix_app_r. reflexivity.
Qed.

Lemma image_predictions_single_block_witness :
  exists r σ' grid,
    image_predictions nat echo_classifier 1
      (fun _ _ => (160, 435, [1; 2; 3; 40; 5; 6]%nat)) [] = (Ok r, σ')
    /\ σ' !! r = Some grid
    /\ Forall (in_range 7) (data grid).
Proof.
  destruct (image_predictions_single_block nat echo_classifier
              (fun _ _ => (160, 435, [1; 2; 3; 40; 5; 6]%nat))
              160 435 [1; 2; 3; 40; 5; 6]%nat [])
    as (zeros & labels & i & calls & r & σ' & grid & _ & _ & Hrun & Hr & _
        & _ & _ & Hrange & _).
  - reflexivity.
  - intros b. apply length_fmap.
  - lia.
  - lia.
  - reflexivity.
  - exists r, σ', grid. auto.
Defined.

(** ** Locality and symmetry of an epoch *)

Lemma new_label_local (class_n : Z) (a b : ndarray) (i j : Z) :
  shape0 a = shape0 b -> shape1 a = shape1 b ->
  (forall p, inside (height a) (width a) p -> chebyshev p (i, j) <= 1 ->
             cell a p = cell b p) ->
  inside (height a) (width a) (i, j) ->
  new_label class_n a i j = new_label class_n b i j.
Proof.
  intros H0 H1 Hagree Hin. unfold new_label. do 2 f_equal.
  apply list_fmap_ext. intros _ c _. unfold cost_at.
  assert (Hnb : neighborhood b i j = neighborhood a i j)
    by (unfold neighborhood, height, width; rewrite H0, H1; reflexivity).
  assert (Hvals : cell a <$> neighborhood a i j
                  = cell b <$> neighborhood a i j).
  { apply list_fmap_ext. intros idx n Hn.
    apply list_elem_of_lookup_2, list_elem_of_filter in Hn as [Hn Hs].
    apply samples_chebyshev in Hs. apply Hagree; [exact Hn|lia]. }
  rewrite Hnb, Hvals. rewrite (Hagree (i, j) Hin)
    by (unfold chebyshev; cbn [fst snd]; lia).
  reflexivity.
Qed.

(** X18: an epoch is local: the label it gives a cell is decided by the
    labels of the cell and of the cells at Chebyshev distance 1.  Two grids
    of one shape that agree there get the same new label at the cell,
    however they differ elsewhere. *)
Theorem epoch_is_local (σ : heap) (src1 src2 : loc) (a b : ndarray)
    (class_n i j : Z) :
  σ !! src1 = Some a -> σ !! src2 = Some b ->
  wf_array a -> wf_array b ->
  shape0 a = shape0 b -> shape1 a = shape1 b ->
  1 <= class_n ->
  inside (height a) (width a) (i, j) ->
  (forall p, inside (height a) (width a) p -> chebyshev p (i, j) <= 1 ->
             cell a p = cell b p) ->
  exists r1 σ1 g1 r2 σ2 g2,
    denoise_predictions src1 class_n 1 σ = (Ok r1, σ1)
    /\ σ1 !! r1 = Some g1
    /\ denoise_predictions src2 class_n 1 σ = (Ok r2, σ2)
    /\ σ2 !! r2 = Some g2
    /\ cell g1 (i, j) = cell g2 (i, j).
Proof.
  intros Ha Hb Hwfa Hwfb H0 H1 Hclass Hin Hagree.
  destruct (one_epoch σ src1 a class_n Ha Hwfa Hclass) as (r1 & σ1 & Hr1 & Hg1).
  destruct (one_epoch σ src2 b class_n Hb Hwfb Hclass) as (r2 & σ2 & Hr2 & Hg2).
  exists r1, σ1, (epoch_step class_n a), r2, σ2, (epoch_step class_n b).
  split; [exact Hr1|]. split; [exact Hg1|].
  split; [exact Hr2|]. split; [exact Hg2|].
  assert (Hin' : inside (height b) (width b) (i, j))
    by (unfold height, width in *; rewrite <- H0, <- H1; exact Hin).
  rewrite (cell_epoch_step _ _ _ _ Hin), (cell_epoch_step _ _ _ _ Hin').
  apply new_label_local; assumption.
Qed.

Lemma epoch_is_local_witness :
  let a := NdArray 1 4 [1; 1; 0; 0] in
  let b := NdArray 1 4 [1; 1; 0; 2] in
  exists r1 σ1 g1 r2 σ2 g2,
    denoise_predictions 0%nat 3 1 [a; b] = (Ok r1, σ1)
    /\ σ1 !! r1 = Some g1
    /\ denoise_predictions 1%nat 3 1 [a; b] = (Ok r2, σ2)
    /\ σ2 !! r2 = Some g2
    /\ cell g1 (0, 1) = cell g2 (0, 1).
Proof.
  apply (epoch_is_local [NdArray 1 4 [1; 1; 0; 0]; NdArray 1 4 [1; 1; 0; 2]]
           0%nat 1%nat (NdArray 1 4 [1; 1; 0; 0]) (NdArray 1 4 [1; 1; 0; 2])
           3 0 1).
  - reflexivity.
  - reflexivity.
  - reflexivity.
  - reflexivity.
  - reflexivity.
  - reflexivity.
  - lia.
  - unfold inside, height, width. simpl. lia.
  - intros [x y]. unfold inside, height, width, chebyshev. cbn [fst snd shape0 shape1].
    intros Hp Hd.
    assert (x = 0) by lia. assert (y = 0 \/ y = 1 \/ y = 2) by lia.
    subst x. destruct H0 as [-> | [-> | ->]]; reflexivity.
Defined.

Lemma ndarray_eq (x y : ndarray) :
  shape0 x = shape0 y -> shape1 x = shape1 y -> data x = data y -> x = y.
Proof. destruct x, y. simpl. intros -> -> ->. reflexivity. Qed.

Lemma wf_transpose (a : ndarray) : wf_array (transpose a).
Proof. unfold wf_array. simpl. rewrite length_fmap, length_seq. reflexivity. Qed.

Lemma cell_transpose (a : ndarray) (i j : Z) :
  inside (height a) (width a) (i, j) ->
  cell (transpose a) (j, i) = cell a (i, j).
Proof.
  unfold inside, height, width. cbn [fst snd]. intros [Hi Hj].
  unfold cell at 1. cbn [fst snd transpose data shape1].
  rewrite list_lookup_fmap, lookup_seq_lt by nia. simpl.
  rewrite Nat.add_comm, Nat.Div0.mod_add, Nat.mod_small by lia.
  rewrite Nat.add_comm, Nat.div_add_l, Nat.div_small, Nat.add_0_r by lia.
  rewrite !Z2Nat.id by lia. reflexivity.
Qed.

Lemma neighborhood_transpose (a : ndarray) (i j : Z) :
  neighborhood (transpose a) j i ≡ₚ prod_swap <$> neighborhood a i j.
Proof.
  apply NoDup_Permutation.
  - apply NoDup_filter, NoDup_samples.
  - apply (NoDup_fmap_2 prod_swap), NoDup_filter, NoDup_samples.
  - intros [x y]. unfold neighborhood. rewrite list_elem_of_fmap.
    rewrite list_elem_of_filter, samples_chebyshev. split.
    + intros [Hin Hd]. exists (y, x). split; [reflexivity|].
      rewrite list_elem_of_filter, samples_chebyshev.
      unfold inside, height, width, chebyshev in *. cbn [fst snd] in *.
      simpl in Hin. split; lia.
    + intros ([u v] & Heq & Hn). simpl in Heq. injection Heq as -> ->.
      rewrite list_elem_of_filter, samples_chebyshev in Hn.
      unfold inside, height, width, chebyshev in *. cbn [fst snd] in *.
      simpl. split; lia.
Qed.

Lemma sumZ_fmap {A B} (f : B -> Z) (g : A -> B) (l : list A) :
  sumZ f (g <$> l) = sumZ (fun x => f (g x)) l.
Proof. unfold sumZ. induction l as [|x l IH]; csimpl; [reflexivity|lia]. Qed.

Lemma sumZ_ext_in {A} (f g : A -> Z) (l : list A) :
  (forall x, x ∈ l -> f x = g x) -> sumZ f l = sumZ g l.
Proof.
  unfold sumZ. induction l as [|x l IH]; intros Hfg; simpl; [reflexivity|].
  rewrite (Hfg x) by (apply elem_of_cons; auto).
  rewrite IH; [reflexivity|]. intros y Hy. apply Hfg, elem_of_cons. auto.
Qed.

Lemma cost_at_transpose (a : ndarray) (i j c : Z) :
  inside (height a) (width a) (i, j) ->
  cost_at (transpose a) j i c = cost_at a i j c.
Proof.
  intros Hin. rewrite !cost_at_agreeing, (cell_transpose a i j Hin).
  do 3 f_equal. unfold agreeing.
  rewrite (sumZ_permutation _ _ _ (neighborhood_transpose a i j)), sumZ_fmap.
  apply sumZ_ext_in. intros [x y] Hn. simpl.
  apply list_elem_of_filter in Hn as [Hn _].
  rewrite (cell_transpose a x y Hn). reflexivity.
Qed.

Lemma new_label_transpose (class_n : Z) (a : ndarray) (i j : Z) :
  inside (height a) (width a) (i, j) ->
  new_label class_n (transpose a) j i = new_label class_n a i j.
Proof.
  intros Hin. unfold new_label. do 2 f_equal.
  apply list_fmap_ext. intros _ c _. apply cost_at_transpose, Hin.
Qed.

Lemma epoch_step_transpose (class_n : Z) (a : ndarray) :
  epoch_step class_n (transpose a) = transpose (epoch_step class_n a).
Proof.
  apply ndarray_eq; [reflexivity|reflexivity|].
  change (data (epoch_step class_n (transpose a)))
    with ((fun k : nat =>
             new_label class_n (transpose a) (Z.of_nat (k / shape0 a))
                                             (Z.of_nat (k mod shape0 a)))
          <$> seq 0 (shape1 a * shape0 a)).
  change (data (transpose (epoch_step class_n a)))
    with ((fun k : nat =>
             cell (epoch_step class_n a)
               (Z.of_nat (k mod shape0 a), Z.of_nat (k / shape0 a)))
          <$> seq 0 (shape1 a * shape0 a)).
  apply list_fmap_ext. intros idx k Hk.
  apply list_elem_of_lookup_2, elem_of_seq in Hk.
  assert (Hh : (0 < shape0 a)%nat) by nia.
  pose proof (Nat.mod_upper_bound k (shape0 a)) as Hmod.
  assert (Hdiv : (k / shape0 a < shape1 a)%nat)
    by (apply Nat.Div0.div_lt_upper_bound; lia).
  assert (Hin : inside (height a) (width a)
                  (Z.of_nat (k mod shape0 a), Z.of_nat (k / shape0 a)))
    by (unfold inside, height, width; cbn [fst snd]; lia).
  rewrite (new_label_transpose _ _ _ _ Hin).
  symmetry. apply (cell_epoch_step class_n a _ _ Hin).
Qed.

Lemma iterate_transpose (class_n : Z) (k : nat) (a : ndarray) :
  iterate class_n k (transpose a) = transpose (iterate class_n k a).
Proof.
  induction k as [|k IH]; [reflexivity|].
  rewrite !iterate_S, IH. apply epoch_step_transpose.
Qed.

(** X19: denoising has no preferred direction: denoising the transposed
    grid returns the transpose of what denoising the grid returns. *)
Theorem denoise_commutes_with_transpose (σ : heap) (src src' : loc)
    (a : ndarray) (class_n epochs : Z) :
  σ !! src = Some a -> σ !! src' = Some (transpose a) ->
  wf_array a -> 1 <= class_n -> 1 <= epochs ->
  exists r σ1 b r' σ2,
    denoise_predictions src class_n epochs σ = (Ok r, σ1)
    /\ σ1 !! r = Some b
    /\ denoise_predictions src' class_n epochs σ = (Ok r', σ2)
    /\ σ2 !! r' = Some (transpose b).
Proof.
  intros Hsrc Hsrc' Hwf Hclass He.
  destruct (denoise_returns_iterate class_n src a σ Hsrc Hwf Hclass epochs He)
    as (r & σ1 & Hrun & _ & _ & Hr).
  destruct (denoise_returns_iterate class_n src' _ σ Hsrc' (wf_transpose a)
              Hclass epochs He) as (r' & σ2 & Hrun' & _ & _ & Hr').
  exists r, σ1, (iterate class_n (Z.to_nat epochs) a), r', σ2.
  split; [exact Hrun|]. split; [exact Hr|]. split; [exact Hrun'|].
  rewrite Hr', iterate_transpose. reflexivity.
Qed.

Lemma denoise_commutes_with_transpose_witness :
  let a := NdArray 2 3 [5; 5; 1; 2; 2; 1] in
  exists r σ1 b r' σ2,
    denoise_predictions 0%nat 3 2 [a; transpose a] = (Ok r, σ1)
    /\ σ1 !! r = Some b
    /\ denoise_predictions 1%nat 3 2 [a; transpose a] = (Ok r', σ2)
    /\ σ2 !! r' = Some (transpose b).
Proof.
  apply (denoise_commutes_with_transpose
           [NdArray 2 3 [5; 5; 1; 2; 2; 1];
            transpose (NdArray 2 3 [5; 5; 1; 2; 2; 1])]
           0%nat 1%nat (NdArray 2 3 [5; 5; 1; 2; 2; 1]) 3 2).
  - reflexivity.
  - reflexivity.
  - reflexivity.
  - lia.
  - lia.
Defined.
